(** * Forward-batch metadata assembly (sglang, forward_batch_info.py)

    A shallow embedding of [ForwardMode] and of
    [InputMetadata.from_schedule_batch], and the properties of the record
    it assembles.

    Modelling choices.
    - Python [int]s held in host lists ([prefix_lens_cpu], ...) are [Z].
    - A [torch.Tensor] is a mutable object: tensors live in a store and the
      batch and the record hold references to them, so that aliasing
      ([ret.seq_lens is batch.seq_lens]) and the one in-place write of the
      source ([ret.extend_start_loc[1:] = ...]) are visible.
    - Tensor elements are fixed-width integers, or float32 values that are
      integers; arithmetic done on tensors ([seq_lens - 1], [torch.cumsum])
      wraps at the width of an integer dtype and rounds in float32.
    - An array or tensor has at most [max_numel] elements; a larger one is
      refused by NumPy and Torch.  Allocation never fails for want of
      memory.
    - An exception ends the call; the store it leaves behind is kept.
    - Python ints that do not fit int64 make NumPy/Torch raise; the model
      agrees that assembly raises on them (through [torch.tensor] over the
      same list) but does not track which statement raises first. *)

From Stdlib Require Import ZArith Lia Bool String.
From stdpp Require Import base list.

(** ** Exceptions and results *)

Inductive PyExc : Set :=
  TypeError | IndexError | ValueError | RuntimeError | OverflowError.

Inductive result (A : Type) : Type :=
| Ok (a : A)
| Raise (e : PyExc).
Arguments Ok {A} a.
Arguments Raise {A} e.

Definition result_map {A B : Type} (f : A -> B) (r : result A) : result B :=
  match r with
  | Ok a => Ok (f a)
  | Raise e => Raise e
  end.

(** ** class ForwardMode(IntEnum) *)

Module ForwardMode.

Inductive t : Set := PREFILL | EXTEND | DECODE | MIXED.

(** Members in definition order. *)
Definition members : list t := [PREFILL; EXTEND; DECODE; MIXED].

(** [auto()] numbers the members 1, 2, 3, 4. *)
Definition value (m : t) : Z :=
  match m with
  | PREFILL => 1
  | EXTEND => 2
  | DECODE => 3
  | MIXED => 4
  end.

(** [==] on an IntEnum compares the integer values. *)
Definition eqb (a b : t) : bool := (value a =? value b)%Z.

Definition is_prefill (self : t) : bool := eqb self PREFILL.

Definition is_extend (self : t) : bool := eqb self EXTEND || eqb self MIXED.

Definition is_decode (self : t) : bool := eqb self DECODE.

Definition is_mixed (self : t) : bool := eqb self MIXED.

(** [ForwardMode(v)]: the enum's by-value constructor; a value that is no
    member's value raises ValueError. *)
Definition call (v : Z) : result t :=
  match find (fun m => (value m =? v)%Z) members with
  | Some m => Ok m
  | None => Raise ValueError
  end.

End ForwardMode.

(** ** Tensors *)

Inductive dtype : Set := int32 | int64 | float32.

Definition dtype_eqb (a b : dtype) : bool :=
  match a, b with
  | int32, int32 | int64, int64 | float32, float32 => true
  | _, _ => false
  end.

Definition bits (d : dtype) : Z :=
  match d with
  | int32 => 32
  | int64 => 64
  | float32 => 32
  end.

Definition int_min (d : dtype) : Z := (- 2 ^ (bits d - 1))%Z.
Definition int_max (d : dtype) : Z := (2 ^ (bits d - 1) - 1)%Z.

(** The float32 nearest to the integer [z], ties to even: 24 significant
    bits.  (Magnitudes beyond the largest finite float32 are not
    distinguished.) *)
Definition round_f32 (z : Z) : Z :=
  let a := Z.abs z in
  if (a <? 2 ^ 24)%Z then z
  else
    let e := (Z.log2 a - 23)%Z in
    let q := (a / 2 ^ e)%Z in
    let r := (a mod 2 ^ e)%Z in
    let half := (2 ^ (e - 1))%Z in
    let q' :=
      if (r <? half)%Z then q
      else if (half <? r)%Z then (q + 1)%Z
      else if Z.even q then q else (q + 1)%Z in
    (Z.sgn z * (q' * 2 ^ e))%Z.

(** The values a dtype holds without loss: the two's complement range of an
    integer dtype, the integers up to [2^24] in magnitude for float32. *)
Definition in_range (d : dtype) (z : Z) : bool :=
  match d with
  | float32 => (- 2 ^ 24 <=? z)%Z && (z <=? 2 ^ 24)%Z
  | _ => (int_min d <=? z)%Z && (z <=? int_max d)%Z
  end.

(** The result of an arithmetic operation whose exact value is [z]: two's
    complement wrap-around to the width of an integer dtype, rounding in
    float32. *)
Definition wrap (d : dtype) (z : Z) : Z :=
  match d with
  | float32 => round_f32 z
  | _ => ((z + 2 ^ (bits d - 1)) mod 2 ^ bits d - 2 ^ (bits d - 1))%Z
  end.

(** Conversion of an element from dtype [src] to dtype [dst].  From an
    integer dtype it is [wrap]; from float32 it truncates, which leaves an
    integral value as it is (outside the target range Torch leaves the
    result undefined; the value is kept). *)
Definition cast (src dst : dtype) (v : Z) : Z :=
  match src with
  | float32 => v
  | _ => wrap dst v
  end.

(** The largest number of elements of an array or tensor: its size in
    bytes is a signed 64-bit integer, so an int64 array has fewer than
    [2^60] elements.  The same limit is used for every dtype. *)
Definition max_numel : Z := (2 ^ 60 - 1)%Z.

(** The first [n] elements of [l]. *)
Fixpoint take_numel (l : list Z) (n : Z) : list Z :=
  match l with
  | [] => []
  | x :: r => if (0 <? n)%Z then x :: take_numel r (n - 1) else []
  end.

Arguments wrap : simpl never.
Arguments in_range : simpl never.
Arguments max_numel : simpl never.

(** A tensor: its dtype and its elements.  [t_data] reads the elements; as
    no tensor has more than [max_numel] of them, it reads at most that
    many. *)
Record Tensor : Type := mkTensor { t_dtype : dtype; t_elems : list Z }.

Definition t_data (t : Tensor) : list Z := take_numel (t_elems t) max_numel.

(** The store of tensor objects; a reference is the allocation index. *)
Abbreviation loc := nat (only parsing).
Abbreviation heap := (list Tensor) (only parsing).

(** ** Store-and-exception monad *)

Definition M (A : Type) : Type := heap -> result A * heap.

Definition pure {A : Type} (a : A) : M A := fun h => (Ok a, h).

Definition raise {A : Type} (e : PyExc) : M A := fun h => (Raise e, h).

Definition bind {A B : Type} (m : M A) (k : A -> M B) : M B :=
  fun h =>
    match m h with
    | (Ok a, h') => k a h'
    | (Raise e, h') => (Raise e, h')
    end.

Notation "'let*' x ':=' m 'in' k" := (bind m (fun x => k))
  (at level 10, x name, m at level 100, k at level 200).

Definition lift {A : Type} (r : result A) : M A := fun h => (r, h).

(** A new tensor object. *)
Definition alloc (t : Tensor) : M loc := fun h => (Ok (length h), h ++ [t]).

(** Reading through a reference.  A reference held by a live Python object
    always points into the store; for completeness a dangling one is
    reported as a RuntimeError. *)
Definition load (l : loc) : M Tensor :=
  fun h =>
    match h !! l with
    | Some t => (Ok t, h)
    | None => (Raise RuntimeError, h)
    end.

(** In-place overwrite of the object at [l]. *)
Definition store (l : loc) (t : Tensor) : M unit :=
  fun h => (Ok tt, <[l := t]> h).

(** ** NumPy and Torch primitives used by the assembler *)

(** The integers [start, start+1, ..., start+n-1]. *)
Fixpoint arange_n (start : Z) (n : nat) : list Z :=
  match n with
  | O => []
  | S n' => start :: arange_n (start + 1)%Z n'
  end.

(** The ascending range [[start, stop)], empty when [stop <= start]. *)
Definition int_range (start stop : Z) : list Z :=
  arange_n start (Z.to_nat (stop - start)).

(** [np.arange(start, stop)] on integers, an int64 array.  NumPy computes
    the length [stop - start] through a double:
    - a length of at most [max_numel] gives the range;
    - a larger length whose double is below [2^63] is refused
      (ValueError, the array is too big);
    - a length whose double is [2^63], that is from [2^63 - 512] to
      [2^63 + 1024], overflows the conversion to an index and gives an
      empty array;
    - beyond that NumPy raises OverflowError. *)
Definition np_arange (start stop : Z) : result (list Z) :=
  let n := (stop - start)%Z in
  if (n <=? max_numel)%Z then Ok (int_range start stop)
  else if (n <? 2 ^ 63 - 512)%Z then Raise ValueError
  else if (n <=? 2 ^ 63 + 1024)%Z then Ok []
  else Raise OverflowError.

(** [np.concatenate(arrays, axis=0)]: ValueError on an empty sequence
    ("need at least one array to concatenate") and on a result of more
    than [max_numel] elements. *)
Definition np_concatenate (arrays : list (list Z)) : result (list Z) :=
  match arrays with
  | [] => Raise ValueError
  | _ =>
      if (Z.of_nat (length (concat arrays)) <=? max_numel)%Z
      then Ok (concat arrays)
      else Raise ValueError
  end.

(** [torch.tensor(ndarray, device="cuda")]: a new int64 tensor. *)
Definition torch_tensor_of_ndarray (a : list Z) : M loc :=
  alloc (mkTensor int64 a).

(** The dtype [torch.tensor] infers for a list of ints: int64, and float32
    (the default dtype) for the empty list. *)
Definition list_dtype (l : list Z) : dtype :=
  match l with
  | [] => float32
  | _ => int64
  end.

(** [torch.tensor(data, device="cuda")] on a host list of ints: a new
    tensor; RuntimeError when [data] is None ("Could not infer dtype of
    NoneType"), holds an int outside int64 ("Overflow when unpacking
    long"), or is longer than a tensor can be. *)
Definition torch_tensor (data : option (list Z)) : M loc :=
  match data with
  | None => raise RuntimeError
  | Some l =>
      if forallb (in_range int64) l
         && (Z.of_nat (length l) <=? max_numel)%Z
      then alloc (mkTensor (list_dtype l) l)
      else raise RuntimeError
  end.

(** [x - k] for a tensor and a Python int: a new tensor of the dtype of
    [x]. *)
Definition tensor_sub (x : loc) (k : Z) : M loc :=
  let* t := load x in
  alloc (mkTensor (t_dtype t) (map (fun v => wrap (t_dtype t) (v - k)) (t_data t))).

(** [x.to(d)]: [x] itself when it already has dtype [d], else a converted
    copy. *)
Definition tensor_to (x : loc) (d : dtype) : M loc :=
  let* t := load x in
  if dtype_eqb (t_dtype t) d then pure x
  else alloc (mkTensor d (map (cast (t_dtype t) d) (t_data t))).

(** [torch.zeros_like(x)]. *)
Definition zeros_like (x : loc) : M loc :=
  let* t := load x in
  alloc (mkTensor (t_dtype t) (map (fun _ => 0%Z) (t_data t))).

(** The dtype of [torch.cumsum(x)]: integer inputs are summed in int64,
    float32 stays float32. *)
Definition cumsum_dtype (d : dtype) : dtype :=
  match d with
  | float32 => float32
  | _ => int64
  end.

(** Inclusive running sums in the arithmetic of dtype [d]. *)
Fixpoint cumsum_from (d : dtype) (acc : Z) (l : list Z) : list Z :=
  match l with
  | [] => []
  | x :: r => let a := wrap d (acc + x) in a :: cumsum_from d a r
  end.

(** [torch.cumsum(x[:-1], dim=0)]: the slice is a view of [x]; the running
    sums are a new tensor. *)
Definition cumsum_but_last (x : loc) : M loc :=
  let* t := load x in
  let d := cumsum_dtype (t_dtype t) in
  alloc (mkTensor d (cumsum_from d 0 (removelast (t_data t)))).

(** [dst[1:] = src]: writes into [dst] in place, converting to the dtype of
    [dst].  The source must have the shape of the slice or a single element
    (broadcast); anything else is a RuntimeError. *)
Definition setitem_from_1 (dst src : loc) : M unit :=
  let* d := load dst in
  let* s := load src in
  let n := length (drop 1 (t_data d)) in
  let vals := map (cast (t_dtype s) (t_dtype d)) (t_data s) in
  if Nat.eqb (length vals) n then
    store dst (mkTensor (t_dtype d) (take 1 (t_data d) ++ vals))
  else
    match vals with
    | [v] => store dst (mkTensor (t_dtype d) (take 1 (t_data d) ++ replicate n v))
    | _ => raise RuntimeError
    end.

(** ** The scheduler's batch descriptor *)

(** Opaque multimodal payload of a request. *)
Inductive ImageInputs : Set := ImagePayload (id : nat).

(** Opaque pool and backend objects. *)
Inductive Handle : Set := HandleId (id : nat).

Module Req.
Record t : Type := mk {
  fill_ids : list Z;
  lora_path : option string;
  image_inputs : option ImageInputs
}.
End Req.

Module ScheduleBatch.

(** The attributes of [ScheduleBatch] that the assembler reads.  The four
    tensors are references into the store; the host lists default to
    None in the scheduler's dataclass. *)
Record t : Type := mk {
  forward_mode : ForwardMode.t;
  reqs : list Req.t;
  input_ids : loc;
  req_pool_indices : loc;
  seq_lens : loc;
  out_cache_loc : loc;
  return_logprob : bool;
  top_logprobs_nums : option (list Z);
  prefix_lens_cpu : option (list Z);
  extend_lens_cpu : option (list Z);
  extend_logprob_start_lens_cpu : option (list Z)
}.

(** Modelled from the spec: [ScheduleBatch.batch_size()] is defined outside
    this file; the spec describes it as the count of requests in this
    pass. *)
Definition batch_size (self : t) : nat := length (reqs self).

End ScheduleBatch.

(** ** class InputMetadata *)

Module InputMetadata.

Record t : Type := mk {
  forward_mode : ForwardMode.t;
  batch_size : nat;
  input_ids : loc;
  req_pool_indices : loc;
  seq_lens : loc;
  out_cache_loc : loc;
  positions : option loc;
  extend_seq_lens : option loc;
  extend_prefix_lens : option loc;
  extend_start_loc : option loc;
  return_logprob : bool;
  top_logprobs_nums : option (list Z);
  extend_seq_lens_cpu : option (list Z);
  extend_logprob_start_lens_cpu : option (list Z);
  image_inputs : option (list (option ImageInputs));
  lora_paths : option (list (option string));
  req_to_token_pool : option Handle;
  token_to_kv_pool : option Handle;
  attn_backend : option Handle
}.

(** The dataclass constructor as [from_schedule_batch] calls it: nine
    keyword arguments, every other field at its default. *)
Definition cls (forward_mode : ForwardMode.t) (batch_size : nat)
    (input_ids req_pool_indices seq_lens out_cache_loc : loc)
    (return_logprob : bool) (top_logprobs_nums : option (list Z))
    (lora_paths : list (option string)) : t :=
  {| forward_mode := forward_mode;
     batch_size := batch_size;
     input_ids := input_ids;
     req_pool_indices := req_pool_indices;
     seq_lens := seq_lens;
     out_cache_loc := out_cache_loc;
     positions := None;
     extend_seq_lens := None;
     extend_prefix_lens := None;
     extend_start_loc := None;
     return_logprob := return_logprob;
     top_logprobs_nums := top_logprobs_nums;
     extend_seq_lens_cpu := None;
     extend_logprob_start_lens_cpu := None;
     image_inputs := None;
     lora_paths := Some lora_paths;
     req_to_token_pool := None;
     token_to_kv_pool := None;
     attn_backend := None |}.

(** Attribute assignments [ret.f = v]. *)
Definition set_forward_mode (r : t) (v : ForwardMode.t) : t :=
  mk v (batch_size r) (input_ids r) (req_pool_indices r) (seq_lens r)
     (out_cache_loc r) (positions r) (extend_seq_lens r)
     (extend_prefix_lens r) (extend_start_loc r) (return_logprob r)
     (top_logprobs_nums r) (extend_seq_lens_cpu r)
     (extend_logprob_start_lens_cpu r) (image_inputs r) (lora_paths r)
     (req_to_token_pool r) (token_to_kv_pool r) (attn_backend r).

Definition set_positions (r : t) (v : loc) : t :=
  mk (forward_mode r) (batch_size r) (input_ids r) (req_pool_indices r)
     (seq_lens r) (out_cache_loc r) (Some v) (extend_seq_lens r)
     (extend_prefix_lens r) (extend_start_loc r) (return_logprob r)
     (top_logprobs_nums r) (extend_seq_lens_cpu r)
     (extend_logprob_start_lens_cpu r) (image_inputs r) (lora_paths r)
     (req_to_token_pool r) (token_to_kv_pool r) (attn_backend r).

Definition set_image_inputs (r : t) (v : list (option ImageInputs)) : t :=
  mk (forward_mode r) (batch_size r) (input_ids r) (req_pool_indices r)
     (seq_lens r) (out_cache_loc r) (positions r) (extend_seq_lens r)
     (extend_prefix_lens r) (extend_start_loc r) (return_logprob r)
     (top_logprobs_nums r) (extend_seq_lens_cpu r)
     (extend_logprob_start_lens_cpu r) (Some v) (lora_paths r)
     (req_to_token_pool r) (token_to_kv_pool r) (attn_backend r).

Definition set_extend_seq_lens (r : t) (v : loc) : t :=
  mk (forward_mode r) (batch_size r) (input_ids r) (req_pool_indices r)
     (seq_lens r) (out_cache_loc r) (positions r) (Some v)
     (extend_prefix_lens r) (extend_start_loc r) (return_logprob r)
     (top_logprobs_nums r) (extend_seq_lens_cpu r)
     (extend_logprob_start_lens_cpu r) (image_inputs r) (lora_paths r)
     (req_to_token_pool r) (token_to_kv_pool r) (attn_backend r).

Definition set_extend_prefix_lens (r : t) (v : loc) : t :=
  mk (forward_mode r) (batch_size r) (input_ids r) (req_pool_indices r)
     (seq_lens r) (out_cache_loc r) (positions r) (extend_seq_lens r)
     (Some v) (extend_start_loc r) (return_logprob r)
     (top_logprobs_nums r) (extend_seq_lens_cpu r)
     (extend_logprob_start_lens_cpu r) (image_inputs r) (lora_paths r)
     (req_to_token_pool r) (token_to_kv_pool r) (attn_backend r).

Definition set_extend_start_loc (r : t) (v : loc) : t :=
  mk (forward_mode r) (batch_size r) (input_ids r) (req_pool_indices r)
     (seq_lens r) (out_cache_loc r) (positions r) (extend_seq_lens r)
     (extend_prefix_lens r) (Some v) (return_logprob r)
     (top_logprobs_nums r) (extend_seq_lens_cpu r)
     (extend_logprob_start_lens_cpu r) (image_inputs r) (lora_paths r)
     (req_to_token_pool r) (token_to_kv_pool r) (attn_backend r).

Definition set_extend_seq_lens_cpu (r : t) (v : option (list Z)) : t :=
  mk (forward_mode r) (batch_size r) (input_ids r) (req_pool_indices r)
     (seq_lens r) (out_cache_loc r) (positions r) (extend_seq_lens r)
     (extend_prefix_lens r) (extend_start_loc r) (return_logprob r)
     (top_logprobs_nums r) v
     (extend_logprob_start_lens_cpu r) (image_inputs r) (lora_paths r)
     (req_to_token_pool r) (token_to_kv_pool r) (attn_backend r).

Definition set_extend_logprob_start_lens_cpu (r : t) (v : option (list Z)) : t :=
  mk (forward_mode r) (batch_size r) (input_ids r) (req_pool_indices r)
     (seq_lens r) (out_cache_loc r) (positions r) (extend_seq_lens r)
     (extend_prefix_lens r) (extend_start_loc r) (return_logprob r)
     (top_logprobs_nums r) (extend_seq_lens_cpu r)
     v (image_inputs r) (lora_paths r)
     (req_to_token_pool r) (token_to_kv_pool r) (attn_backend r).

(** [[np.arange(batch.prefix_lens_cpu[i], len(req.fill_ids))
      for i, req in enumerate(batch.reqs)]], from index [i] on.
    Subscripting None is a TypeError, an index past the end of the list
    an IndexError, and [np.arange] may raise; the elements are evaluated in
    order, so the first of these ends the comprehension.  With no request
    nothing is subscripted. *)
Fixpoint position_ranges (prefix_lens_cpu : option (list Z)) (i : nat)
    (reqs : list Req.t) : result (list (list Z)) :=
  match reqs with
  | [] => Ok []
  | req :: rest =>
      match prefix_lens_cpu with
      | None => Raise TypeError
      | Some pl =>
          match pl !! i with
          | None => Raise IndexError
          | Some start =>
              match np_arange start (Z.of_nat (length (Req.fill_ids req))) with
              | Raise e => Raise e
              | Ok a =>
                  match position_ranges prefix_lens_cpu (S i) rest with
                  | Ok arrs => Ok (a :: arrs)
                  | Raise e => Raise e
                  end
              end
          end
      end
  end.

Definition from_schedule_batch (batch : ScheduleBatch.t) : M t :=
  let ret0 :=
    cls (ScheduleBatch.forward_mode batch)
        (ScheduleBatch.batch_size batch)
        (ScheduleBatch.input_ids batch)
        (ScheduleBatch.req_pool_indices batch)
        (ScheduleBatch.seq_lens batch)
        (ScheduleBatch.out_cache_loc batch)
        (ScheduleBatch.return_logprob batch)
        (ScheduleBatch.top_logprobs_nums batch)
        (map Req.lora_path (ScheduleBatch.reqs batch)) in
  if ForwardMode.is_decode (forward_mode ret0) then
    let* tmp := tensor_sub (seq_lens ret0) 1 in
    let* p := tensor_to tmp int64 in
    let ret1 := set_positions ret0 p in
    pure ret1
  else
    let* arrs := lift (position_ranges (ScheduleBatch.prefix_lens_cpu batch) 0
                                      (ScheduleBatch.reqs batch)) in
    let* cat := lift (np_concatenate arrs) in
    let* p0 := torch_tensor_of_ndarray cat in
    let* p := tensor_to p0 int64 in
    let ret1 := set_positions ret0 p in
    let ret2 := set_image_inputs ret1 (map Req.image_inputs (ScheduleBatch.reqs batch)) in
    let* esl := torch_tensor (ScheduleBatch.extend_lens_cpu batch) in
    let ret3 := set_extend_seq_lens ret2 esl in
    let* epl := torch_tensor (ScheduleBatch.prefix_lens_cpu batch) in
    let ret4 := set_extend_prefix_lens ret3 epl in
    let* start := zeros_like esl in
    let ret5 := set_extend_start_loc ret4 start in
    let* cs := cumsum_but_last esl in
    let* _ := setitem_from_1 start cs in
    let ret6 := set_extend_seq_lens_cpu ret5 (ScheduleBatch.extend_lens_cpu batch) in
    let ret7 := set_extend_logprob_start_lens_cpu ret6
                  (ScheduleBatch.extend_logprob_start_lens_cpu batch) in
    pure ret7.

End InputMetadata.

(** * Vocabulary of the theorems *)

Definition sum (l : list Z) : Z := foldr Z.add 0%Z l.

(** The content of [extend_start_loc] once [dst[1:] = cumsum(src[:-1])] has
    been written over the zeros. *)
Definition start_loc_data (lens : list Z) : list Z :=
  take 1 (map (fun _ => 0%Z) lens)
  ++ map (wrap int64) (cumsum_from int64 0 (removelast lens)).

(** [h'] keeps every object of [h] as it was. *)
Definition preserves (h h' : list Tensor) : Prop :=
  forall (l : nat) (t : Tensor), h !! l = Some t -> h' !! l = Some t.

(** The record right after [ret = cls(...)]. *)
Definition initial_record (batch : ScheduleBatch.t) : InputMetadata.t :=
  InputMetadata.cls (ScheduleBatch.forward_mode batch)
    (ScheduleBatch.batch_size batch)
    (ScheduleBatch.input_ids batch)
    (ScheduleBatch.req_pool_indices batch)
    (ScheduleBatch.seq_lens batch)
    (ScheduleBatch.out_cache_loc batch)
    (ScheduleBatch.return_logprob batch)
    (ScheduleBatch.top_logprobs_nums batch)
    (map Req.lora_path (ScheduleBatch.reqs batch)).

(** [seq_lens - 1], computed in the dtype of [seq_lens]. *)
Definition minus_one (t : Tensor) : Tensor :=
  mkTensor (t_dtype t) (map (fun v => wrap (t_dtype t) (v - 1)) (t_data t)).

(** The positions tensor of a decode pass. *)
Definition decode_positions (t : Tensor) : Tensor :=
  mkTensor int64 (t_data (minus_one t)).

(** The record an extend-bearing pass returns when the first new tensor is
    allocated at reference [n]. *)
Definition extend_record (b : ScheduleBatch.t) (n : nat) : InputMetadata.t :=
  InputMetadata.set_extend_logprob_start_lens_cpu
    (InputMetadata.set_extend_seq_lens_cpu
       (InputMetadata.set_extend_start_loc
          (InputMetadata.set_extend_prefix_lens
             (InputMetadata.set_extend_seq_lens
                (InputMetadata.set_image_inputs
                   (InputMetadata.set_positions (initial_record b) n)
                   (map Req.image_inputs (ScheduleBatch.reqs b)))
                (n + 1))
             (n + 2))
          (n + 3))
       (ScheduleBatch.extend_lens_cpu b))
    (ScheduleBatch.extend_logprob_start_lens_cpu b).

(** The tensors an extend-bearing pass adds to the store, in allocation
    order: positions, extend_seq_lens, extend_prefix_lens, extend_start_loc
    and the temporary holding the running sums. *)
Definition extend_store (arrs : list (list Z)) (pl el : list Z) : list Tensor :=
  [ mkTensor int64 (concat arrs);
    mkTensor (list_dtype el) el;
    mkTensor (list_dtype pl) pl;
    mkTensor (list_dtype el) (start_loc_data el);
    mkTensor (list_dtype el) (cumsum_from int64 0 (removelast el)) ].

(** What [torch.tensor] accepts: ints that fit int64, no more of them than
    a tensor can hold. *)
Definition tensor_list_ok (l : list Z) : bool :=
  forallb (in_range int64) l && (Z.of_nat (length l) <=? max_numel)%Z.

(** Every way the else-branch can end. *)
Definition extend_outcome (b : ScheduleBatch.t) (h : list Tensor)
    : result InputMetadata.t * list Tensor :=
  match InputMetadata.position_ranges (ScheduleBatch.prefix_lens_cpu b) 0
          (ScheduleBatch.reqs b) with
  | Raise e => (Raise e, h)
  | Ok [] => (Raise ValueError, h)
  | Ok arrs =>
      if (Z.of_nat (length (concat arrs)) <=? max_numel)%Z then
        let P := mkTensor int64 (concat arrs) in
        match ScheduleBatch.extend_lens_cpu b with
        | None => (Raise RuntimeError, h ++ [P])
        | Some el =>
            if tensor_list_ok el then
              let L := mkTensor (list_dtype el) el in
              match ScheduleBatch.prefix_lens_cpu b with
              | None => (Raise RuntimeError, h ++ [P; L])
              | Some pl =>
                  if tensor_list_ok pl then
                    (Ok (extend_record b (length h)),
                     h ++ extend_store arrs pl el)
                  else (Raise RuntimeError, h ++ [P; L])
              end
            else (Raise RuntimeError, h ++ [P])
        end
      else (Raise ValueError, h)
  end.

(** [len(req.fill_ids)]. *)
Definition fill_len (req : Req.t) : Z := Z.of_nat (length (Req.fill_ids req)).

(** The range of positions [[prefix_len, fill_len)] of each request, the
    requests paired by index with the cached prefix lengths. *)
Definition request_ranges (pl : list Z) (reqs : list Req.t) : list (list Z) :=
  zip_with (fun p req => int_range p (fill_len req)) pl reqs.

(** No request's range has more entries than an array can hold. *)
Definition ranges_fit (pl : list Z) (reqs : list Req.t) : Prop :=
  forall (i : nat) (req : Req.t) (p : Z),
    reqs !! i = Some req -> pl !! i = Some p ->
    (fill_len req - p <= max_numel)%Z.

(** The tensor behind an optional reference. *)
Definition tensor_of (h : list Tensor) (o : option nat) : option Tensor :=
  match o with
  | Some l => h !! l
  | None => None
  end.

(** The slice [l[start : start + len]] for non-negative [start], [len]. *)
Definition span (l : list Z) (start len : Z) : list Z :=
  take (Z.to_nat len) (drop (Z.to_nat start) l).

(** What the scheduler promises about an extend-bearing descriptor: one
    cached-prefix length and one extend length per request, the prefix
    within the fill length, and the extend length their difference. *)
Record scheduler_contract (b : ScheduleBatch.t) (pl el : list Z) : Prop := {
  contract_prefix : ScheduleBatch.prefix_lens_cpu b = Some pl;
  contract_extend : ScheduleBatch.extend_lens_cpu b = Some el;
  contract_prefix_len : length pl = length (ScheduleBatch.reqs b);
  contract_extend_len : length el = length (ScheduleBatch.reqs b);
  contract_each :
    forall (i : nat) (req : Req.t) (p n : Z),
      ScheduleBatch.reqs b !! i = Some req ->
      pl !! i = Some p ->
      el !! i = Some n ->
      (p <= fill_len req)%Z /\ n = (fill_len req - p)%Z
}.

(** The span property of the positions array as the specification states
    it: for request [i] with [prefix_len[i] <= fill_len[i]], the slice of
    [positions] at [extend_start_loc[i]] of length [extend_seq_lens[i]] is
    the range [[prefix_len[i], fill_len[i])]. *)
Definition positions_span_property (b : ScheduleBatch.t) (h : list Tensor) : Prop :=
  forall (r : InputMetadata.t) (h' : list Tensor) (pl : list Z)
         (P lens starts : Tensor),
    InputMetadata.from_schedule_batch b h = (Ok r, h') ->
    ScheduleBatch.prefix_lens_cpu b = Some pl ->
    tensor_of h' (InputMetadata.positions r) = Some P ->
    tensor_of h' (InputMetadata.extend_seq_lens r) = Some lens ->
    tensor_of h' (InputMetadata.extend_start_loc r) = Some starts ->
    forall (i : nat) (req : Req.t) (p s n : Z),
      ScheduleBatch.reqs b !! i = Some req ->
      pl !! i = Some p ->
      (p <= fill_len req)%Z ->
      t_data starts !! i = Some s ->
      t_data lens !! i = Some n ->
      span (t_data P) s n = int_range p (fill_len req).

(** The supplied extend lengths agree with the lists for the requests up to
    request [i]: the cached prefix is within the fill length, and the
    extend length is their difference. *)
Definition extend_lengths_agree_upto (b : ScheduleBatch.t) (pl el : list Z)
    (i : nat) : Prop :=
  forall (j : nat) (req : Req.t) (p n : Z),
    (j <= i)%nat ->
    ScheduleBatch.reqs b !! j = Some req ->
    pl !! j = Some p ->
    el !! j = Some n ->
    (p <= fill_len req)%Z /\ n = (fill_len req - p)%Z.

(** No range of a request up to request [i] has more entries than an
    array can hold. *)
Definition ranges_fit_upto (pl : list Z) (reqs : list Req.t) (i : nat) : Prop :=
  forall (j : nat) (req : Req.t) (p : Z),
    (j <= i)%nat ->
    reqs !! j = Some req ->
    pl !! j = Some p ->
    (fill_len req - p <= max_numel)%Z.

(** The number of new tokens of the batch: the sum over the requests of
    [fill_len - prefix_len]. *)
Definition new_token_count (pl : list Z) (reqs : list Req.t) : Z :=
  sum (zip_with (fun p req => (fill_len req - p)%Z) pl reqs).

(** The descriptor with its mode replaced. *)
Definition with_mode (b : ScheduleBatch.t) (m : ForwardMode.t) : ScheduleBatch.t :=
  ScheduleBatch.mk m (ScheduleBatch.reqs b) (ScheduleBatch.input_ids b)
    (ScheduleBatch.req_pool_indices b) (ScheduleBatch.seq_lens b)
    (ScheduleBatch.out_cache_loc b) (ScheduleBatch.return_logprob b)
    (ScheduleBatch.top_logprobs_nums b) (ScheduleBatch.prefix_lens_cpu b)
    (ScheduleBatch.extend_lens_cpu b)
    (ScheduleBatch.extend_logprob_start_lens_cpu b).

Definition outcome_map (f : InputMetadata.t -> InputMetadata.t)
    (o : result InputMetadata.t * list Tensor)
    : result InputMetadata.t * list Tensor :=
  (result_map f (fst o), snd o).

(** Some extend-only attribute of the descriptor is supplied. *)
Definition extend_fields_supplied (b : ScheduleBatch.t) : Prop :=
  ScheduleBatch.prefix_lens_cpu b <> None
  \/ ScheduleBatch.extend_lens_cpu b <> None
  \/ ScheduleBatch.extend_logprob_start_lens_cpu b <> None.

(** The descriptor without its extend-only attributes. *)
Definition clear_extend_fields (b : ScheduleBatch.t) : ScheduleBatch.t :=
  ScheduleBatch.mk (ScheduleBatch.forward_mode b) (ScheduleBatch.reqs b)
    (ScheduleBatch.input_ids b) (ScheduleBatch.req_pool_indices b)
    (ScheduleBatch.seq_lens b) (ScheduleBatch.out_cache_loc b)
    (ScheduleBatch.return_logprob b) (ScheduleBatch.top_logprobs_nums b)
    None None None.

(** Every field of a record, with each tensor reference replaced by the
    tensor it points to in the store. *)
Definition contents (h : list Tensor) (r : InputMetadata.t) :=
  ( (InputMetadata.forward_mode r, InputMetadata.batch_size r,
     InputMetadata.return_logprob r, InputMetadata.top_logprobs_nums r,
     InputMetadata.extend_seq_lens_cpu r,
     InputMetadata.extend_logprob_start_lens_cpu r,
     InputMetadata.image_inputs r, InputMetadata.lora_paths r,
     InputMetadata.req_to_token_pool r, InputMetadata.token_to_kv_pool r,
     InputMetadata.attn_backend r),
    (h !! InputMetadata.input_ids r, h !! InputMetadata.req_pool_indices r,
     h !! InputMetadata.seq_lens r, h !! InputMetadata.out_cache_loc r),
    (tensor_of h (InputMetadata.positions r),
     tensor_of h (InputMetadata.extend_seq_lens r),
     tensor_of h (InputMetadata.extend_prefix_lens r),
     tensor_of h (InputMetadata.extend_start_loc r)) ).

(** The four tensors of the descriptor are live objects of the store. *)
Definition live_batch (b : ScheduleBatch.t) (h : list Tensor) : Prop :=
  is_Some (h !! ScheduleBatch.input_ids b)
  /\ is_Some (h !! ScheduleBatch.req_pool_indices b)
  /\ is_Some (h !! ScheduleBatch.seq_lens b)
  /\ is_Some (h !! ScheduleBatch.out_cache_loc b).

(** Two calls end alike: the same exception, or records with the same
    contents. *)
Definition same_outcome (o1 o2 : result InputMetadata.t * list Tensor) : Prop :=
  match fst o1, fst o2 with
  | Ok r1, Ok r2 => contents (snd o1) r1 = contents (snd o2) r2
  | Raise e1, Raise e2 => e1 = e2
  | _, _ => False
  end.

(** The number of entries the requests contribute to [positions]: a
    request whose cached prefix reaches or exceeds its fill length
    contributes none. *)
Definition range_sizes (pl : list Z) (reqs : list Req.t) : list Z :=
  zip_with (fun p req => Z.max 0 (fill_len req - p)) pl reqs.


(** What a call creates: the host-side fields of the record and the
    tensors behind its four optional references. *)
Definition created (h : list Tensor) (r : InputMetadata.t) :=
  ( (InputMetadata.forward_mode r, InputMetadata.batch_size r,
     InputMetadata.return_logprob r, InputMetadata.top_logprobs_nums r,
     InputMetadata.extend_seq_lens_cpu r,
     InputMetadata.extend_logprob_start_lens_cpu r,
     InputMetadata.image_inputs r, InputMetadata.lora_paths r),
    (tensor_of h (InputMetadata.positions r),
     tensor_of h (InputMetadata.extend_seq_lens r),
     tensor_of h (InputMetadata.extend_prefix_lens r),
     tensor_of h (InputMetadata.extend_start_loc r)) ).

(** Two calls create the same, or raise the same exception. *)
Definition same_created (o1 o2 : result InputMetadata.t * list Tensor) : Prop :=
  match fst o1, fst o2 with
  | Ok r1, Ok r2 => created (snd o1) r1 = created (snd o2) r2
  | Raise e1, Raise e2 => e1 = e2
  | _, _ => False
  end.

(** * Concrete descriptors *)

(** The decode scenario of the specification: [seq_lens = [10, 3]]. *)
Definition decode_example_store : list Tensor :=
  [ mkTensor int64 [101; 102]%Z; mkTensor int64 [0; 1]%Z;
    mkTensor int32 [10; 3]%Z; mkTensor int64 [40; 41]%Z ].

Definition decode_example_batch : ScheduleBatch.t :=
  ScheduleBatch.mk ForwardMode.DECODE
    [Req.mk [1; 2; 3]%Z None None; Req.mk [4]%Z None None]
    0 1 2 3 true (Some [0; 0]%Z) None None None.

(** The extend scenario of the specification: [prefix_len = [0, 4, 2]],
    [fill_len = [5, 4, 6]], nine new tokens. *)
Definition extend_example_store : list Tensor :=
  [ mkTensor int64 [11; 12; 13; 14; 15; 31; 32; 33; 34]%Z;
    mkTensor int64 [0; 1; 2]%Z;
    mkTensor int32 [5; 4; 6]%Z;
    mkTensor int64 [70; 71; 72; 73; 74; 75; 76; 77; 78]%Z ].

Definition extend_example_batch : ScheduleBatch.t :=
  ScheduleBatch.mk ForwardMode.EXTEND
    [ Req.mk [11; 12; 13; 14; 15]%Z None None;
      Req.mk [21; 22; 23; 24]%Z None None;
      Req.mk [9; 9; 31; 32; 33; 34]%Z None None ]
    0 1 2 3 false None (Some [0; 4; 2]%Z) (Some [5; 0; 4]%Z) None.

(** A batch the assembler accepts although the supplied extend length (1)
    is not [fill_len - prefix_len] (2 - 0). *)
Definition off_contract_batch : ScheduleBatch.t :=
  ScheduleBatch.mk ForwardMode.EXTEND
    [Req.mk [5; 6]%Z None None]
    0 1 2 3 false None (Some [0]%Z) (Some [1]%Z) None.

Definition off_contract_store : list Tensor :=
  [ mkTensor int64 [6]%Z; mkTensor int64 [0]%Z;
    mkTensor int32 [2]%Z; mkTensor int64 [9]%Z ].

(** A decode-mode descriptor that carries all three extend-only
    attributes. *)
Definition decode_with_extend_fields : ScheduleBatch.t :=
  ScheduleBatch.mk ForwardMode.DECODE
    [Req.mk [1; 2; 3]%Z None None; Req.mk [4]%Z None None]
    0 1 2 3 false None (Some [0; 0]%Z) (Some [3; 1]%Z) (Some [0; 0]%Z).

(** An EXTEND batch of one request whose [prefix_lens_cpu] has three
    entries and whose [extend_lens_cpu] has two. *)
Definition ragged_batch : ScheduleBatch.t :=
  ScheduleBatch.mk ForwardMode.EXTEND
    [Req.mk [5; 6]%Z None None]
    0 1 2 3 false None (Some [0; 7; 7]%Z) (Some [2; 9]%Z) None.



(** An EXTEND batch whose second request has a cached prefix (9) longer
    than its fill ids (1). *)
Definition overlong_prefix_batch : ScheduleBatch.t :=
  ScheduleBatch.mk ForwardMode.EXTEND
    [Req.mk [5; 6; 7]%Z None None; Req.mk [8]%Z None None]
    0 1 2 3 false None (Some [1; 9]%Z) (Some [2; 0]%Z) None.

(** A store unrelated to the one of the extend scenario: other tensors,
    another size. *)
Definition other_store : list Tensor :=
  [ mkTensor int32 [1]%Z; mkTensor int64 []; mkTensor int64 [8; 8]%Z ].

(** A store whose third tensor is the [seq_lens] of the decode scenario,
    among other tensors. *)
Definition other_decode_store : list Tensor :=
  [ mkTensor int64 []; mkTensor int64 [7]%Z; mkTensor int32 [10; 3]%Z ].

(** * Supporting lemmas *)

(** ** Fixed-width arithmetic *)

Lemma pow2_bits (d : dtype) : (2 ^ bits d = 2 * 2 ^ (bits d - 1))%Z.
Proof. destruct d; reflexivity. Qed.

Lemma half_pos (d : dtype) : (0 < 2 ^ (bits d - 1))%Z.
Proof. destruct d; reflexivity. Qed.

Lemma in_range_spec (d : dtype) (z : Z) :
  d <> float32 ->
  in_range d z = true <-> (int_min d <= z <= int_max d)%Z.
Proof.
  intros Hd. destruct d; [| |congruence]; unfold in_range;
    rewrite andb_true_iff, !Z.leb_le; tauto.
Qed.

Lemma in_range_int64 (z : Z) :
  in_range int64 z = true <-> (- 2 ^ 63 <= z <= 2 ^ 63 - 1)%Z.
Proof. rewrite in_range_spec by discriminate. reflexivity. Qed.

Lemma round_f32_small (z : Z) :
  (- 2 ^ 24 <= z <= 2 ^ 24)%Z -> round_f32 z = z.
Proof.
  intros Hz. unfold round_f32.
  destruct (Z.ltb_spec (Z.abs z) (2 ^ 24)) as [Hlt|Hge]; [reflexivity|].
  assert (Hcases : (z = 2 ^ 24 \/ z = - 2 ^ 24)%Z) by lia.
  destruct Hcases as [-> | ->]; reflexivity.
Qed.

Lemma wrap_in_range (d : dtype) (z : Z) : in_range d z = true -> wrap d z = z.
Proof.
  destruct d.
  1,2: rewrite in_range_spec by discriminate; unfold wrap, int_min, int_max;
    intros Hz;
    match goal with |- context [bits ?d] =>
      pose proof (half_pos d) as Hh; pose proof (pow2_bits d) as Hp end;
    rewrite Z.mod_small by lia; lia.
  unfold in_range, wrap. rewrite andb_true_iff, !Z.leb_le.
  intros Hz. apply round_f32_small. lia.
Qed.

Lemma wrap_range (d : dtype) (z : Z) :
  d <> float32 -> in_range d (wrap d z) = true.
Proof.
  intros Hd. rewrite in_range_spec by exact Hd.
  destruct d; [| |congruence]; unfold wrap, int_min, int_max;
    match goal with |- context [bits ?d] =>
      pose proof (half_pos d) as Hh; pose proof (pow2_bits d) as Hp;
      pose proof (Z.mod_pos_bound (z + 2 ^ (bits d - 1)) (2 ^ bits d)) as Hm
    end; lia.
Qed.

Lemma wrap_add_l (a b : Z) :
  wrap int64 (wrap int64 a + b) = wrap int64 (a + b).
Proof.
  unfold wrap. f_equal.
  replace ((a + 2 ^ (bits int64 - 1)) mod 2 ^ bits int64
           - 2 ^ (bits int64 - 1) + b + 2 ^ (bits int64 - 1))%Z
    with ((a + 2 ^ (bits int64 - 1)) mod 2 ^ bits int64 + b)%Z by lia.
  rewrite Z.add_mod_idemp_l by (simpl; lia).
  f_equal. lia.
Qed.

Lemma wrap_idem (z : Z) : wrap int64 (wrap int64 z) = wrap int64 z.
Proof. apply wrap_in_range, wrap_range. discriminate. Qed.

Lemma in_range_32_64 (z : Z) : in_range int32 z = true -> in_range int64 z = true.
Proof.
  rewrite !in_range_spec by discriminate. unfold int_min, int_max. simpl. lia.
Qed.

(** ** Sizes *)

Lemma take_numel_fits (l : list Z) (n : Z) :
  (Z.of_nat (length l) <= n)%Z -> take_numel l n = l.
Proof.
  revert n. induction l as [|x l IH]; intros n Hn; [reflexivity|].
  simpl in Hn. simpl. destruct (Z.ltb_spec 0 n) as [_|Hle]; [|lia].
  rewrite IH by lia. reflexivity.
Qed.

Lemma length_take_numel (l : list Z) (n : Z) :
  (0 <= n)%Z -> (Z.of_nat (length (take_numel l n)) <= n)%Z.
Proof.
  revert n. induction l as [|x l IH]; intros n Hn; simpl; [lia|].
  destruct (Z.ltb_spec 0 n) as [Hlt|Hle]; simpl; [|lia].
  specialize (IH (n - 1)%Z). lia.
Qed.

Lemma length_t_data (t : Tensor) : (Z.of_nat (length (t_data t)) <= max_numel)%Z.
Proof. apply length_take_numel. unfold max_numel. lia. Qed.

Lemma t_data_mk (d : dtype) (l : list Z) :
  (Z.of_nat (length l) <= max_numel)%Z -> t_data (mkTensor d l) = l.
Proof. intros H. unfold t_data. simpl. now apply take_numel_fits. Qed.

Lemma t_data_mk_of_data (d : dtype) (t : Tensor) (f : list Z -> list Z) :
  (forall l, (length (f l) <= length l)%nat) ->
  t_data (mkTensor d (f (t_data t))) = f (t_data t).
Proof.
  intros Hf. apply t_data_mk. pose proof (length_t_data t).
  specialize (Hf (t_data t)). lia.
Qed.

Lemma tensor_list_ok_spec (l : list Z) :
  tensor_list_ok l = true
  <-> forallb (in_range int64) l = true
      /\ (Z.of_nat (length l) <= max_numel)%Z.
Proof. unfold tensor_list_ok. rewrite andb_true_iff, Z.leb_le. tauto. Qed.

(** ** Ranges *)

Lemma length_arange_n (start : Z) (n : nat) : length (arange_n start n) = n.
Proof. revert start. induction n as [|n IH]; intros start; simpl; [reflexivity|]. now rewrite IH. Qed.

Lemma lookup_arange_n (start : Z) (n k : nat) :
  (k < n)%nat -> arange_n start n !! k = Some (start + Z.of_nat k)%Z.
Proof.
  revert start k. induction n as [|n IH]; intros start k Hk; [lia|].
  destruct k as [|k]; simpl.
  - f_equal. lia.
  - rewrite IH by lia. f_equal. lia.
Qed.

Lemma lookup_int_range (start stop : Z) (k : nat) :
  (start + Z.of_nat k < stop)%Z ->
  int_range start stop !! k = Some (start + Z.of_nat k)%Z.
Proof. intros H. unfold int_range. apply lookup_arange_n. lia. Qed.

Lemma length_int_range (start stop : Z) :
  (start <= stop)%Z -> Z.of_nat (length (int_range start stop)) = (stop - start)%Z.
Proof. intros H. unfold int_range. rewrite length_arange_n. lia. Qed.

Lemma int_range_empty (start stop : Z) : (stop <= start)%Z -> int_range start stop = [].
Proof.
  intros H. unfold int_range. replace (Z.to_nat (stop - start)) with O by lia.
  reflexivity.
Qed.

(** Within the size an array can have, [np.arange] is the range. *)
Lemma np_arange_fits (start stop : Z) :
  (stop - start <= max_numel)%Z -> np_arange start stop = Ok (int_range start stop).
Proof.
  intros H. unfold np_arange. destruct (Z.leb_spec (stop - start) max_numel); [reflexivity|lia].
Qed.

(** Whatever [np.arange] returns is the range or, when the length
    overflows, nothing. *)
Lemma np_arange_ok (start stop : Z) (a : list Z) :
  np_arange start stop = Ok a ->
  ((stop - start <= max_numel)%Z /\ a = int_range start stop)
  \/ ((2 ^ 63 - 512 <= stop - start)%Z /\ a = []).
Proof.
  unfold np_arange.
  destruct (Z.leb_spec (stop - start) max_numel) as [Hle|Hgt].
  - intros [= <-]. left. split; [exact Hle|reflexivity].
  - destruct (Z.ltb_spec (stop - start) (2 ^ 63 - 512)); [discriminate|].
    destruct (Z.leb_spec (stop - start) (2 ^ 63 + 1024)); [|discriminate].
    intros [= <-]. right. split; [assumption|reflexivity].
Qed.

(** ** Running sums *)

Lemma sum_app (l1 l2 : list Z) : sum (l1 ++ l2) = (sum l1 + sum l2)%Z.
Proof. induction l1 as [|x l1 IH]; simpl; [reflexivity|]. unfold sum in *. simpl. lia. Qed.

Lemma length_cumsum_from (d : dtype) (acc : Z) (l : list Z) :
  length (cumsum_from d acc l) = length l.
Proof. revert acc. induction l as [|x l IH]; intros acc; simpl; [reflexivity|]. now rewrite IH. Qed.

Lemma lookup_cumsum_from (acc : Z) (l : list Z) (i : nat) :
  (i < length l)%nat ->
  cumsum_from int64 acc l !! i = Some (wrap int64 (acc + sum (take (S i) l))).
Proof.
  revert acc i. induction l as [|x l IH]; intros acc i Hi; simpl in Hi; [lia|].
  destruct i as [|i]; simpl.
  - f_equal. f_equal. unfold sum. simpl. destruct l; simpl; lia.
  - rewrite IH by lia. f_equal. rewrite wrap_add_l. f_equal.
    unfold sum. simpl. lia.
Qed.

Lemma length_removelast {A : Type} (l : list A) :
  length (removelast l) = pred (length l).
Proof.
  induction l as [|x l IH]; [reflexivity|].
  destruct l as [|y l]; [reflexivity|].
  change (removelast (x :: y :: l)) with (x :: removelast (y :: l)).
  change (length (x :: removelast (y :: l))) with (S (length (removelast (y :: l)))).
  rewrite IH. reflexivity.
Qed.

Lemma take_removelast {A : Type} (l : list A) (n : nat) :
  (n < length l)%nat -> take n (removelast l) = take n l.
Proof.
  revert n. induction l as [|x l IH]; intros n Hn; [simpl in Hn; lia|].
  destruct l as [|y l].
  - simpl in Hn. assert (n = O) by lia. subst. reflexivity.
  - change (removelast (x :: y :: l)) with (x :: removelast (y :: l)).
    destruct n as [|n]; [reflexivity|]. simpl take. f_equal.
    apply IH. simpl in *. lia.
Qed.

Lemma length_start_loc_data (lens : list Z) :
  length (start_loc_data lens) = length lens.
Proof.
  unfold start_loc_data. rewrite length_app, length_take, !length_map.
  rewrite length_cumsum_from, length_removelast. destruct lens; simpl; lia.
Qed.

Lemma lookup_start_loc_data (lens : list Z) (i : nat) :
  (i < length lens)%nat ->
  start_loc_data lens !! i = Some (wrap int64 (sum (take i lens))).
Proof.
  intros Hi. unfold start_loc_data. destruct lens as [|x lens]; [simpl in Hi; lia|].
  destruct i as [|i].
  - reflexivity.
  - change (take 1 (map (fun _ => 0%Z) (x :: lens))) with [0%Z].
    change (([0%Z] ++ ?l) !! S i) with (l !! i).
    simpl length in Hi.
    rewrite list_lookup_fmap, lookup_cumsum_from
      by (rewrite length_removelast; simpl; lia).
    rewrite take_removelast by (simpl; lia).
    rewrite Z.add_0_l. cbn [fmap option_fmap option_map]. now rewrite wrap_idem.
Qed.

(** ** The store *)

Lemma lookup_ext (h ext : list Tensor) (k : nat) :
  (h ++ ext) !! (length h + k)%nat = ext !! k.
Proof. induction h as [|t h IH]; [reflexivity|]. exact IH. Qed.

Lemma lookup_ext_0 (h ext : list Tensor) : (h ++ ext) !! length h = ext !! O.
Proof. rewrite <- (lookup_ext h ext 0). f_equal. lia. Qed.

Lemma preserves_app (h ext : list Tensor) : preserves h (h ++ ext).
Proof. intros l t Hl. now apply lookup_app_l_Some. Qed.

(** ** Running the assembler *)

Lemma map_wrap_in_range (d : dtype) (l : list Z) :
  forallb (in_range d) l = true -> map (wrap d) l = l.
Proof.
  induction l as [|x l IH]; simpl; [reflexivity|].
  rewrite andb_true_iff. intros [Hx Hl]. now rewrite wrap_in_range, IH.
Qed.

Lemma t_data_minus_one (t : Tensor) :
  t_data (minus_one t)
  = map (fun v => wrap (t_dtype t) (v - 1)) (t_data t).
Proof.
  unfold minus_one. apply t_data_mk. rewrite length_map. apply length_t_data.
Qed.

Lemma t_dtype_minus_one (t : Tensor) : t_dtype (minus_one t) = t_dtype t.
Proof. reflexivity. Qed.

Lemma minus_one_int64 (t : Tensor) :
  t_dtype t <> float32 ->
  forallb (in_range int64) (t_data (minus_one t)) = true.
Proof.
  intros Hd. rewrite t_data_minus_one.
  induction (t_data t) as [|x l IH]; simpl; [reflexivity|].
  rewrite IH, andb_true_r. destruct (t_dtype t); [| |congruence].
  - apply in_range_32_64, wrap_range. discriminate.
  - apply wrap_range. discriminate.
Qed.

(** Converting the elements of [seq_lens - 1] to int64 changes none. *)
Lemma cast_minus_one (t : Tensor) :
  map (cast (t_dtype t) int64) (t_data (minus_one t)) = t_data (minus_one t).
Proof.
  destruct (t_dtype t) eqn:Hd.
  - apply map_wrap_in_range, minus_one_int64. congruence.
  - apply map_wrap_in_range, minus_one_int64. congruence.
  - apply map_id.
Qed.


Lemma run_decode (b : ScheduleBatch.t) (h : list Tensor) (t : Tensor) :
  ForwardMode.is_decode (ScheduleBatch.forward_mode b) = true ->
  h !! ScheduleBatch.seq_lens b = Some t ->
  exists (p : nat) (ext : list Tensor),
    InputMetadata.from_schedule_batch b h
    = (Ok (InputMetadata.set_positions (initial_record b) p), h ++ ext)
    /\ (h ++ ext) !! p = Some (decode_positions t)
    /\ (length h <= p)%nat.
Proof.
  intros Hdec Hseq.
  unfold InputMetadata.from_schedule_batch. fold (initial_record b).
  change (InputMetadata.forward_mode (initial_record b))
    with (ScheduleBatch.forward_mode b).
  rewrite Hdec.
  change (InputMetadata.seq_lens (initial_record b)) with (ScheduleBatch.seq_lens b).
  unfold bind at 1. unfold tensor_sub, bind at 1, load. rewrite Hseq.
  fold (minus_one t). unfold alloc at 1.
  unfold tensor_to, bind, load. rewrite lookup_ext_0. simpl lookup.
  cbv beta iota. rewrite t_dtype_minus_one.
  destruct (dtype_eqb (t_dtype t) int64) eqn:Hd.
  - exists (length h), [minus_one t].
    split; [reflexivity|]. split; [|lia].
    rewrite lookup_ext_0. simpl lookup. f_equal. unfold decode_positions.
    rewrite t_data_minus_one. unfold minus_one.
    destruct (t_dtype t); try discriminate. reflexivity.
  - exists (S (length h)),
      [minus_one t;
       mkTensor int64 (map (cast (t_dtype t) int64) (t_data (minus_one t)))].
    unfold alloc, pure. rewrite length_app. simpl length.
    replace (length h + 1)%nat with (S (length h)) by lia.
    rewrite <- app_assoc. split; [reflexivity|]. split; [|lia].
    replace (S (length h)) with (length h + 1)%nat by lia.
    rewrite lookup_ext. simpl lookup. f_equal. unfold decode_positions. f_equal.
    apply cast_minus_one.
Qed.

Lemma run_decode_dangling (b : ScheduleBatch.t) (h : list Tensor) :
  ForwardMode.is_decode (ScheduleBatch.forward_mode b) = true ->
  h !! ScheduleBatch.seq_lens b = None ->
  InputMetadata.from_schedule_batch b h = (Raise RuntimeError, h).
Proof.
  intros Hdec Hseq. unfold InputMetadata.from_schedule_batch.
  change (InputMetadata.forward_mode _) with (ScheduleBatch.forward_mode b).
  rewrite Hdec.
  change (InputMetadata.seq_lens _) with (ScheduleBatch.seq_lens b).
  unfold bind at 1. unfold tensor_sub, bind at 1, load. now rewrite Hseq.
Qed.

(** One step of each primitive. *)

Lemma bind_ok {A B : Type} (m : M A) (k : A -> M B) (h h' : list Tensor) (a : A) :
  m h = (Ok a, h') -> bind m k h = k a h'.
Proof. intros H. unfold bind. now rewrite H. Qed.

Lemma bind_raise {A B : Type} (m : M A) (k : A -> M B) (h h' : list Tensor)
    (e : PyExc) :
  m h = (Raise e, h') -> bind m k h = (Raise e, h').
Proof. intros H. unfold bind. now rewrite H. Qed.

Lemma load_run (h : list Tensor) (x : nat) (t : Tensor) :
  h !! x = Some t -> load x h = (Ok t, h).
Proof. intros H. unfold load. now rewrite H. Qed.

Lemma torch_tensor_run (l : list Z) (h : list Tensor) :
  tensor_list_ok l = true ->
  torch_tensor (Some l) h = (Ok (length h), h ++ [mkTensor (list_dtype l) l]).
Proof. intros H. unfold torch_tensor. fold (tensor_list_ok l). now rewrite H. Qed.

Lemma torch_tensor_refuses (l : list Z) (h : list Tensor) :
  tensor_list_ok l = false ->
  torch_tensor (Some l) h = (Raise RuntimeError, h).
Proof. intros H. unfold torch_tensor. fold (tensor_list_ok l). now rewrite H. Qed.

Lemma tensor_to_same (h : list Tensor) (x : nat) (t : Tensor) :
  h !! x = Some t -> tensor_to x (t_dtype t) h = (Ok x, h).
Proof.
  intros H. unfold tensor_to. rewrite (bind_ok _ _ _ _ _ (load_run h x t H)).
  destruct (t_dtype t); reflexivity.
Qed.

Lemma zeros_like_run (h : list Tensor) (x : nat) (t : Tensor) :
  h !! x = Some t ->
  zeros_like x h
  = (Ok (length h), h ++ [mkTensor (t_dtype t) (map (fun _ => 0%Z) (t_data t))]).
Proof.
  intros H. unfold zeros_like. now rewrite (bind_ok _ _ _ _ _ (load_run h x t H)).
Qed.

Lemma cumsum_but_last_run (h : list Tensor) (x : nat) (t : Tensor) :
  h !! x = Some t ->
  cumsum_but_last x h
  = (Ok (length h),
     h ++ [mkTensor (cumsum_dtype (t_dtype t))
             (cumsum_from (cumsum_dtype (t_dtype t)) 0 (removelast (t_data t)))]).
Proof.
  intros H. unfold cumsum_but_last.
  now rewrite (bind_ok _ _ _ _ _ (load_run h x t H)).
Qed.

Lemma setitem_from_1_run (h : list Tensor) (dst src : nat) (d s : Tensor) :
  h !! dst = Some d -> h !! src = Some s ->
  length (t_data s) = length (drop 1 (t_data d)) ->
  setitem_from_1 dst src h
  = (Ok tt,
     <[dst := mkTensor (t_dtype d)
                (take 1 (t_data d)
                 ++ map (cast (t_dtype s) (t_dtype d)) (t_data s))]> h).
Proof.
  intros Hd Hs Hlen. unfold setitem_from_1.
  rewrite (bind_ok _ _ _ _ _ (load_run h dst d Hd)).
  rewrite (bind_ok _ _ _ _ _ (load_run h src s Hs)).
  rewrite length_map, Hlen, Nat.eqb_refl. reflexivity.
Qed.

(** The last three tensor statements of the else-branch, from a store that
    ends with the positions, extend_seq_lens and extend_prefix_lens
    tensors. *)
Lemma start_loc_steps (h : list Tensor) (P X : Tensor) (el : list Z) :
  (Z.of_nat (length el) <= max_numel)%Z ->
  exists (h1 h2 : list Tensor),
    zeros_like (length h + 1)
      (h ++ [P; mkTensor (list_dtype el) el; X])
    = (Ok (length h + 3)%nat, h1)
    /\ cumsum_but_last (length h + 1) h1 = (Ok (length h + 4)%nat, h2)
    /\ setitem_from_1 (length h + 3) (length h + 4) h2
       = (Ok tt,
          h ++ [P; mkTensor (list_dtype el) el; X;
                mkTensor (list_dtype el) (start_loc_data el);
                mkTensor (list_dtype el)
                  (cumsum_from int64 0 (removelast el))]).
Proof.
  intros Hfit.
  set (L := mkTensor (list_dtype el) el).
  set (h1 := h ++ [P; L; X]).
  assert (HL : h1 !! (length h + 1)%nat = Some L)
    by (unfold h1; now rewrite lookup_ext).
  assert (HdL : t_data L = el) by now apply t_data_mk.
  assert (Hlen1 : length h1 = (length h + 3)%nat)
    by (unfold h1; rewrite length_app; simpl; lia).
  set (Z0 := mkTensor (t_dtype L) (map (fun _ => 0%Z) el)).
  set (C := mkTensor (cumsum_dtype (t_dtype L))
              (cumsum_from (cumsum_dtype (t_dtype L)) 0 (removelast el))).
  exists (h1 ++ [Z0]), ((h1 ++ [Z0]) ++ [C]).
  split; [|split].
  - rewrite (zeros_like_run h1 _ L HL), HdL, Hlen1. reflexivity.
  - assert (HL2 : (h1 ++ [Z0]) !! (length h + 1)%nat = Some L)
      by (now apply lookup_app_l_Some).
    rewrite (cumsum_but_last_run (h1 ++ [Z0]) _ L HL2), HdL.
    rewrite length_app, Hlen1. simpl length.
    replace (length h + 3 + 1)%nat with (length h + 4)%nat by lia.
    reflexivity.
  - assert (HZ : ((h1 ++ [Z0]) ++ [C]) !! (length h + 3)%nat = Some Z0).
    { rewrite <- Hlen1, <- app_assoc. now rewrite lookup_ext_0. }
    assert (HC : ((h1 ++ [Z0]) ++ [C]) !! (length h + 4)%nat = Some C).
    { replace (length h + 4)%nat with (length (h1 ++ [Z0])).
      - now rewrite lookup_ext_0.
      - rewrite length_app, Hlen1. simpl. lia. }
    assert (HdZ : t_data Z0 = map (fun _ => 0%Z) el).
    { unfold Z0. apply t_data_mk. now rewrite length_map. }
    assert (HdC : t_data C
                  = cumsum_from (cumsum_dtype (t_dtype L)) 0 (removelast el)).
    { unfold C. apply t_data_mk.
      rewrite length_cumsum_from, length_removelast. lia. }
    rewrite (setitem_from_1_run _ _ _ Z0 C HZ HC
               ltac:(rewrite HdC, HdZ, length_cumsum_from, length_removelast,
                       length_drop, length_map; lia)).
    f_equal. rewrite HdZ, HdC. unfold h1. rewrite <- !app_assoc. simpl app.
    rewrite insert_app_r. simpl. f_equal.
    unfold Z0, C, L, start_loc_data. simpl t_dtype.
    destruct el as [|x el']; reflexivity.
Qed.

Lemma run_extend (b : ScheduleBatch.t) (h : list Tensor) :
  ForwardMode.is_decode (ScheduleBatch.forward_mode b) = false ->
  InputMetadata.from_schedule_batch b h = extend_outcome b h.
Proof.
  intros Hdec. unfold InputMetadata.from_schedule_batch, extend_outcome.
  fold (initial_record b).
  change (InputMetadata.forward_mode (initial_record b))
    with (ScheduleBatch.forward_mode b).
  rewrite Hdec. unfold bind at 1. unfold lift at 1.
  destruct (InputMetadata.position_ranges _ _ _) as [arrs|e]; [|reflexivity].
  unfold bind at 1. unfold lift at 1.
  destruct arrs as [|a arrs]; [reflexivity|].
  set (A := a :: arrs).
  change (np_concatenate A)
    with (if (Z.of_nat (length (concat A)) <=? max_numel)%Z
          then Ok (concat A) else Raise ValueError).
  destruct (Z.of_nat (length (concat A)) <=? max_numel)%Z; [|reflexivity].
  unfold bind at 1. unfold torch_tensor_of_ndarray, alloc at 1.
  set (P := mkTensor int64 (concat A)).
  rewrite (bind_ok _ _ _ _ _
             (tensor_to_same (h ++ [P]) (length h) P
                ltac:(now rewrite lookup_ext_0))).
  destruct (ScheduleBatch.extend_lens_cpu b) as [el|] eqn:Hel; [|reflexivity].
  destruct (tensor_list_ok el) eqn:Hokel.
  2:{ now rewrite (bind_raise _ _ _ _ _ (torch_tensor_refuses el _ Hokel)). }
  rewrite (bind_ok _ _ _ _ _ (torch_tensor_run el _ Hokel)).
  destruct (ScheduleBatch.prefix_lens_cpu b) as [pl|] eqn:Hpl.
  2:{ rewrite <- app_assoc. reflexivity. }
  destruct (tensor_list_ok pl) eqn:Hokpl.
  2:{ rewrite (bind_raise _ _ _ _ _ (torch_tensor_refuses pl _ Hokpl)).
      rewrite <- app_assoc. reflexivity. }
  rewrite (bind_ok _ _ _ _ _ (torch_tensor_run pl _ Hokpl)).
  rewrite <- !app_assoc. simpl app. rewrite !length_app. simpl length.
  apply tensor_list_ok_spec in Hokel as [_ Hfit].
  destruct (start_loc_steps h P (mkTensor (list_dtype pl) pl) el Hfit)
    as (h1 & h2 & Hz & Hc & Hset).
  rewrite (bind_ok _ _ _ _ _ Hz).
  rewrite (bind_ok _ _ _ _ _ Hc).
  rewrite (bind_ok _ _ _ _ _ Hset).
  unfold pure, extend_record, extend_store. rewrite Hel.
  replace (length h + 1 + 1)%nat with (length h + 2)%nat by lia.
  reflexivity.
Qed.

(** ** Per-request ranges *)

Lemma position_ranges_no_request (p : option (list Z)) (i : nat) :
  InputMetadata.position_ranges p i [] = Ok [].
Proof. destruct p; reflexivity. Qed.

Lemma position_ranges_None (i : nat) (req : Req.t) (reqs : list Req.t) :
  InputMetadata.position_ranges None i (req :: reqs) = Raise TypeError.
Proof. reflexivity. Qed.

Lemma ranges_fit_tail (p : Z) (pl : list Z) (req : Req.t) (reqs : list Req.t) :
  ranges_fit (p :: pl) (req :: reqs) ->
  (fill_len req - p <= max_numel)%Z /\ ranges_fit pl reqs.
Proof.
  intros Hfit. split.
  - apply (Hfit 0%nat req p); reflexivity.
  - intros i r q Hr Hq. apply (Hfit (S i) r q); assumption.
Qed.

Lemma position_ranges_ok (pl : list Z) (reqs : list Req.t) (i : nat) :
  (i + length reqs <= length pl)%nat ->
  ranges_fit (drop i pl) reqs ->
  InputMetadata.position_ranges (Some pl) i reqs
  = Ok (request_ranges (drop i pl) reqs).
Proof.
  revert i. induction reqs as [|req reqs IH]; intros i Hi Hfit.
  - unfold request_ranges. simpl. now destruct (drop i pl).
  - simpl in Hi. simpl.
    destruct (pl !! i) as [p|] eqn:Hp.
    + rewrite (drop_S pl p i Hp) in Hfit.
      apply ranges_fit_tail in Hfit as [Hp0 Hfit].
      fold (fill_len req). rewrite (np_arange_fits _ _ Hp0).
      rewrite IH by (assumption || lia). unfold request_ranges.
      rewrite (drop_S pl p i Hp). reflexivity.
    + apply lookup_ge_None in Hp. lia.
Qed.


(** What a completed comprehension says about its inputs and its result. *)
Lemma position_ranges_Ok (pl : list Z) (reqs : list Req.t) (i : nat)
    (arrs : list (list Z)) :
  InputMetadata.position_ranges (Some pl) i reqs = Ok arrs ->
  length arrs = length reqs
  /\ (reqs <> [] -> (i + length reqs <= length pl)%nat)
  /\ forall (k : nat) (req : Req.t),
       reqs !! k = Some req ->
       exists (p : Z) (a : list Z),
         pl !! (i + k)%nat = Some p
         /\ arrs !! k = Some a
         /\ np_arange p (fill_len req) = Ok a.
Proof.
  revert i arrs. induction reqs as [|req reqs IH]; intros i arrs Hok.
  - simpl in Hok. injection Hok as <-.
    split; [reflexivity|]. split; [congruence|]. intros k req Hk. discriminate.
  - simpl in Hok. destruct (pl !! i) as [p|] eqn:Hp; [|discriminate].
    fold (fill_len req) in Hok.
    destruct (np_arange p (fill_len req)) as [a|e] eqn:Ha; [|discriminate].
    destruct (InputMetadata.position_ranges (Some pl) (S i) reqs)
      as [rest|e] eqn:Hrest; [|discriminate].
    injection Hok as <-.
    destruct (IH (S i) rest Hrest) as (Hlen & Hbound & Hall).
    split; [simpl; now rewrite Hlen|]. split.
    + intros _. apply lookup_lt_Some in Hp. simpl.
      destruct reqs as [|r2 reqs]; [simpl; lia|].
      specialize (Hbound ltac:(discriminate)). simpl in *. lia.
    + intros [|k] r Hr.
      * injection Hr as <-. exists p, a. rewrite Nat.add_0_r.
        repeat split; assumption.
      * destruct (Hall k r Hr) as (q & c & Hq & Hc & Hqc).
        exists q, c. replace (i + S k)%nat with (S i + k)%nat by lia.
        repeat split; assumption.
Qed.

Lemma position_ranges_inv (p : option (list Z)) (reqs : list Req.t)
    (arrs : list (list Z)) :
  InputMetadata.position_ranges p 0 reqs = Ok arrs ->
  arrs <> [] ->
  exists pl, p = Some pl /\ (length reqs <= length pl)%nat /\ reqs <> [].
Proof.
  intros Hok Hne. destruct reqs as [|req reqs].
  - rewrite position_ranges_no_request in Hok. congruence.
  - destruct p as [pl|]; [|discriminate].
    exists pl. split; [reflexivity|].
    destruct (position_ranges_Ok pl _ 0 arrs Hok) as (_ & Hbound & _).
    split; [|discriminate]. specialize (Hbound ltac:(discriminate)). lia.
Qed.

(** With ranges that fit, the comprehension yields the ranges. *)
Lemma position_ranges_fit (pl : list Z) (reqs : list Req.t)
    (arrs : list (list Z)) :
  InputMetadata.position_ranges (Some pl) 0 reqs = Ok arrs ->
  ranges_fit pl reqs ->
  arrs = request_ranges pl reqs.
Proof.
  intros Hok Hfit.
  destruct reqs as [|req reqs].
  - simpl in Hok. injection Hok as <-. unfold request_ranges.
    now destruct pl.
  - destruct (position_ranges_Ok pl _ 0 arrs Hok) as (_ & Hbound & _).
    specialize (Hbound ltac:(discriminate)).
    rewrite position_ranges_ok in Hok by (rewrite ?drop_0; assumption || lia).
    rewrite drop_0 in Hok. congruence.
Qed.

Lemma length_request_ranges (pl : list Z) (reqs : list Req.t) :
  (length reqs <= length pl)%nat ->
  length (request_ranges pl reqs) = length reqs.
Proof. intros H. unfold request_ranges. rewrite length_zip_with. lia. Qed.

Lemma lookup_request_ranges (pl : list Z) (reqs : list Req.t) (i : nat)
    (p : Z) (req : Req.t) :
  pl !! i = Some p -> reqs !! i = Some req ->
  request_ranges pl reqs !! i = Some (int_range p (fill_len req)).
Proof.
  intros Hp Hr. unfold request_ranges. rewrite lookup_zip_with, Hp. simpl.
  now rewrite Hr.
Qed.

(** ** Reading a successful extend-bearing run *)

Lemma run_extend_inv (b : ScheduleBatch.t) (h h' : list Tensor)
    (r : InputMetadata.t) :
  ForwardMode.is_decode (ScheduleBatch.forward_mode b) = false ->
  InputMetadata.from_schedule_batch b h = (Ok r, h') ->
  exists (arrs : list (list Z)) (pl el : list Z),
    InputMetadata.position_ranges (Some pl) 0 (ScheduleBatch.reqs b) = Ok arrs
    /\ (Z.of_nat (length (concat arrs)) <= max_numel)%Z
    /\ ScheduleBatch.prefix_lens_cpu b = Some pl
    /\ ScheduleBatch.extend_lens_cpu b = Some el
    /\ ScheduleBatch.reqs b <> []
    /\ (length (ScheduleBatch.reqs b) <= length pl)%nat
    /\ tensor_list_ok pl = true
    /\ tensor_list_ok el = true
    /\ r = extend_record b (length h)
    /\ h' = h ++ extend_store arrs pl el.
Proof.
  intros Hdec Hrun. rewrite run_extend in Hrun by exact Hdec.
  unfold extend_outcome in Hrun.
  destruct (InputMetadata.position_ranges _ _ _) as [arrs|e] eqn:Hpos;
    [|discriminate].
  destruct arrs as [|a arrs]; [discriminate|].
  destruct (position_ranges_inv _ _ _ Hpos) as (pl & Hpl & Hlen & Hreqs);
    [discriminate|].
  rewrite Hpl in Hrun, Hpos.
  destruct (Z.leb_spec (Z.of_nat (length (concat (a :: arrs)))) max_numel)
    as [Hfit|]; [|discriminate].
  destruct (ScheduleBatch.extend_lens_cpu b) as [el|]; [|discriminate].
  destruct (tensor_list_ok el) eqn:Hel; [|discriminate].
  destruct (tensor_list_ok pl) eqn:Hrpl; [|discriminate].
  exists (a :: arrs), pl, el.
  repeat (split; [first [reflexivity | assumption]|]).
  split; congruence.
Qed.

Lemma sum_range_sizes_nonneg (pl : list Z) (reqs : list Req.t) :
  (0 <= sum (range_sizes pl reqs))%Z.
Proof.
  unfold range_sizes. revert reqs.
  induction pl as [|p pl IH]; intros [|req reqs]; try (cbn; lia).
  cbn [zip_with]. unfold sum in *. cbn [foldr]. specialize (IH reqs). lia.
Qed.

Lemma range_sizes_fit (pl : list Z) (reqs : list Req.t) :
  (sum (range_sizes pl reqs) <= max_numel)%Z -> ranges_fit pl reqs.
Proof.
  unfold range_sizes. revert reqs.
  induction pl as [|p pl IH]; intros [|req reqs] Hsum i r q Hr Hq;
    try discriminate.
  cbn [zip_with] in Hsum. unfold sum in Hsum. cbn [foldr] in Hsum.
  fold (sum (zip_with (fun p req => Z.max 0 (fill_len req - p)) pl reqs)) in Hsum.
  pose proof (sum_range_sizes_nonneg pl reqs) as Hnn. unfold range_sizes in Hnn.
  destruct i as [|i].
  - injection Hr as <-. injection Hq as <-. lia.
  - apply (IH reqs ltac:(lia) i r q Hr Hq).
Qed.

Lemma length_int_range_max (start stop : Z) :
  Z.of_nat (length (int_range start stop)) = Z.max 0 (stop - start).
Proof. unfold int_range. rewrite length_arange_n. lia. Qed.

Lemma length_concat_request_ranges (pl : list Z) (reqs : list Req.t) :
  Z.of_nat (length (concat (request_ranges pl reqs))) = sum (range_sizes pl reqs).
Proof.
  unfold request_ranges, range_sizes. revert reqs.
  induction pl as [|p pl IH]; intros [|req reqs]; try reflexivity.
  cbn [zip_with concat]. rewrite length_app, Nat2Z.inj_add, IH.
  rewrite length_int_range_max. reflexivity.
Qed.


(** The four new tensors of an extend-bearing record, read back. *)
Lemma extend_record_tensors (b : ScheduleBatch.t) (h : list Tensor)
    (arrs : list (list Z)) (pl el : list Z) :
  let r := extend_record b (length h) in
  let h' := h ++ extend_store arrs pl el in
  tensor_of h' (InputMetadata.positions r) = Some (mkTensor int64 (concat arrs))
  /\ tensor_of h' (InputMetadata.extend_seq_lens r)
     = Some (mkTensor (list_dtype el) el)
  /\ tensor_of h' (InputMetadata.extend_prefix_lens r)
     = Some (mkTensor (list_dtype pl) pl)
  /\ tensor_of h' (InputMetadata.extend_start_loc r)
     = Some (mkTensor (list_dtype el) (start_loc_data el)).
Proof.
  simpl. rewrite lookup_ext_0, !lookup_ext. repeat split; reflexivity.
Qed.

(** The elements of the new tensors of a successful extend-bearing run. *)
Lemma extend_run_data (b : ScheduleBatch.t) (h h' : list Tensor)
    (r : InputMetadata.t) :
  ForwardMode.is_decode (ScheduleBatch.forward_mode b) = false ->
  InputMetadata.from_schedule_batch b h = (Ok r, h') ->
  exists (arrs : list (list Z)) (pl el : list Z) (P L X S : Tensor),
    InputMetadata.position_ranges (Some pl) 0 (ScheduleBatch.reqs b) = Ok arrs
    /\ ScheduleBatch.prefix_lens_cpu b = Some pl
    /\ ScheduleBatch.extend_lens_cpu b = Some el
    /\ tensor_list_ok pl = true
    /\ tensor_list_ok el = true
    /\ tensor_of h' (InputMetadata.positions r) = Some P
    /\ tensor_of h' (InputMetadata.extend_seq_lens r) = Some L
    /\ tensor_of h' (InputMetadata.extend_prefix_lens r) = Some X
    /\ tensor_of h' (InputMetadata.extend_start_loc r) = Some S
    /\ t_data P = concat arrs /\ t_dtype P = int64
    /\ t_data L = el /\ t_dtype L = list_dtype el
    /\ t_data X = pl /\ t_dtype X = list_dtype pl
    /\ t_data S = start_loc_data el.
Proof.
  intros Hdec Hrun.
  destruct (run_extend_inv b h h' r Hdec Hrun)
    as (arrs & pl & el & Hpos & Hfit & Hpl & Hel & _ & _ & Hokpl & Hokel
        & -> & ->).
  destruct (extend_record_tensors b h arrs pl el) as (HP & HL & HX & HS).
  pose proof (proj1 (tensor_list_ok_spec pl) Hokpl) as [_ Hfpl].
  pose proof (proj1 (tensor_list_ok_spec el) Hokel) as [_ Hfel].
  exists arrs, pl, el. eexists _, _, _, _.
  repeat (split; [eassumption|]).
  split; [now apply t_data_mk|]. split; [reflexivity|].
  split; [now apply t_data_mk|]. split; [reflexivity|].
  split; [now apply t_data_mk|]. split; [reflexivity|].
  apply t_data_mk. now rewrite length_start_loc_data.
Qed.

Lemma run_decode_inv (b : ScheduleBatch.t) (h h' : list Tensor)
    (r : InputMetadata.t) :
  ForwardMode.is_decode (ScheduleBatch.forward_mode b) = true ->
  InputMetadata.from_schedule_batch b h = (Ok r, h') ->
  exists (t : Tensor) (p : nat) (ext : list Tensor),
    h !! ScheduleBatch.seq_lens b = Some t
    /\ r = InputMetadata.set_positions (initial_record b) p
    /\ h' = h ++ ext
    /\ h' !! p = Some (decode_positions t).
Proof.
  intros Hdec Hrun.
  destruct (h !! ScheduleBatch.seq_lens b) as [t|] eqn:Hseq.
  - destruct (run_decode b h t Hdec Hseq) as (p & ext & Hr & Hp & _).
    rewrite Hr in Hrun. injection Hrun as <- <-.
    exists t, p, ext. repeat split; assumption.
  - rewrite run_decode_dangling in Hrun by assumption. discriminate.
Qed.

Lemma mode_cases (m : ForwardMode.t) :
  ForwardMode.is_decode m = true \/ ForwardMode.is_decode m = false.
Proof. destruct (ForwardMode.is_decode m); auto. Qed.

(** * Main theorems *)

(** ** Forward-mode classifier *)

(** C7. For each of the four tags, [is_extend] holds exactly for EXTEND and
    MIXED, [is_decode] exactly for DECODE, [is_prefill] exactly for PREFILL
    and [is_mixed] exactly for MIXED; the predicates are total functions
    into [bool] (nothing to raise, no state).  Constructing a mode from a
    member's value gives that member, and from any integer [v] that is no
    member's value, [ForwardMode(v)] raises. *)
Theorem forward_mode_predicates (m : ForwardMode.t) (v : Z) :
  (ForwardMode.is_extend m = true
     <-> m = ForwardMode.EXTEND \/ m = ForwardMode.MIXED)
  /\ (ForwardMode.is_decode m = true <-> m = ForwardMode.DECODE)
  /\ (ForwardMode.is_prefill m = true <-> m = ForwardMode.PREFILL)
  /\ (ForwardMode.is_mixed m = true <-> m = ForwardMode.MIXED)
  /\ ForwardMode.call (ForwardMode.value m) = Ok m
  /\ ((forall m' : ForwardMode.t, ForwardMode.value m' <> v) ->
      ForwardMode.call v = Raise ValueError).
Proof.
  repeat split; try (destruct m; simpl; intros; try discriminate; auto; fail).
  - destruct m; cbn; intros [H|H]; congruence.
  - intros Hout. unfold ForwardMode.call, ForwardMode.members.
    cbn [find ForwardMode.value].
    pose proof (Hout ForwardMode.PREFILL) as H1.
    pose proof (Hout ForwardMode.EXTEND) as H2.
    pose proof (Hout ForwardMode.DECODE) as H3.
    pose proof (Hout ForwardMode.MIXED) as H4.
    cbn [ForwardMode.value] in H1, H2, H3, H4.
    apply Z.eqb_neq in H1, H2, H3, H4.
    now rewrite H1, H2, H3, H4.
Qed.

Lemma forward_mode_predicates_witness :
  (forall m' : ForwardMode.t, ForwardMode.value m' <> 7%Z)
  /\ ForwardMode.is_extend ForwardMode.MIXED = true
  /\ ForwardMode.call 7 = Raise ValueError.
Proof.
  assert (H : forall m' : ForwardMode.t, ForwardMode.value m' <> 7%Z)
    by (intros m'; destruct m'; discriminate).
  split; [exact H|].
  pose proof (forward_mode_predicates ForwardMode.MIXED 7) as (He & _ & _ & _ & _ & Hc).
  split; [apply He; right; reflexivity | exact (Hc H)].
Defined.

(** ** Decode passes *)



(** ** Extend-bearing passes *)

Lemma sum_take_S (l : list Z) (i : nat) (n : Z) :
  l !! i = Some n -> sum (take (S i) l) = (sum (take i l) + n)%Z.
Proof.
  intros Hn. rewrite (take_S_r l i n Hn), sum_app. unfold sum. simpl. lia.
Qed.

(** C2. In every extend-bearing batch that assembles, [extend_start_loc]
    has one entry per entry of [extend_seq_lens], starts at 0, and each
    further entry is the previous one plus the previous length, in the
    int64 arithmetic of the tensors (so it is the integer sum whenever that
    is representable); entry [i] is the sum of the first [i] lengths.  A
    zero length is not special: the next offset repeats the current one. *)
Theorem extend_start_loc_is_exclusive_prefix_sum
    (b : ScheduleBatch.t) (h h' : list Tensor) (r : InputMetadata.t) :
  ForwardMode.is_decode (ScheduleBatch.forward_mode b) = false ->
  InputMetadata.from_schedule_batch b h = (Ok r, h') ->
  exists (lens starts : Tensor),
    tensor_of h' (InputMetadata.extend_seq_lens r) = Some lens
    /\ tensor_of h' (InputMetadata.extend_start_loc r) = Some starts
    /\ length (t_data starts) = length (t_data lens)
    /\ (t_data lens <> [] -> t_data starts !! 0%nat = Some 0%Z)
    /\ (forall (i : nat) (s : Z),
          t_data starts !! i = Some s ->
          s = wrap int64 (sum (take i (t_data lens))))
    /\ (forall (i : nat) (s n : Z),
          t_data starts !! i = Some s ->
          t_data lens !! i = Some n ->
          (S i < length (t_data lens))%nat ->
          t_data starts !! S i = Some (wrap int64 (s + n))
          /\ (in_range int64 (s + n) = true ->
              t_data starts !! S i = Some (s + n)%Z)
          /\ (n = 0%Z -> t_data starts !! S i = Some s)).
Proof.
  intros Hdec Hrun.
  destruct (extend_run_data b h h' r Hdec Hrun)
    as (arrs & pl & el & P & L & X & St & _ & _ & _ & _ & _ & _ & HL & _ & HS
        & _ & _ & HdL & _ & _ & _ & HdS).
  exists L, St.
  split; [exact HL|]. split; [exact HS|]. rewrite HdL, HdS.
  split; [apply length_start_loc_data|].
  split.
  { intros Hne. rewrite lookup_start_loc_data by (destruct el; simpl; [congruence|lia]).
    reflexivity. }
  assert (Hclosed : forall i s, start_loc_data el !! i = Some s ->
                                s = wrap int64 (sum (take i el))).
  { intros i s Hs. pose proof (lookup_lt_Some _ _ _ Hs) as Hi.
    rewrite length_start_loc_data in Hi.
    rewrite lookup_start_loc_data in Hs by exact Hi. congruence. }
  split; [exact Hclosed|].
  intros i s n Hs Hn Hlt.
  assert (Hnext : start_loc_data el !! S i = Some (wrap int64 (s + n))).
  { rewrite lookup_start_loc_data by exact Hlt.
    rewrite (sum_take_S el i n Hn), (Hclosed i s Hs), wrap_add_l. reflexivity. }
  split; [exact Hnext|]. split.
  - intros Hr. now rewrite Hnext, wrap_in_range.
  - intros ->. rewrite Hnext, Z.add_0_r, (Hclosed i s Hs), wrap_idem. reflexivity.
Qed.

Lemma extend_start_loc_is_exclusive_prefix_sum_witness :
  exists (r : InputMetadata.t) (h' : list Tensor),
    InputMetadata.from_schedule_batch extend_example_batch extend_example_store
    = (Ok r, h')
    /\ exists (lens starts : Tensor),
         tensor_of h' (InputMetadata.extend_seq_lens r) = Some lens
         /\ tensor_of h' (InputMetadata.extend_start_loc r) = Some starts
         /\ t_data lens = [5; 0; 4]%Z
         /\ t_data starts = [0; 5; 5]%Z.
Proof.
  eexists _, _. split; [vm_compute; reflexivity|].
  edestruct (extend_start_loc_is_exclusive_prefix_sum extend_example_batch
               extend_example_store)
    as (lens & starts & Hl & Hs & _); [reflexivity|vm_compute; reflexivity|].
  exists lens, starts. split; [exact Hl|]. split; [exact Hs|].
  vm_compute in Hl, Hs. injection Hl as <-. injection Hs as <-.
  split; reflexivity.
Defined.

Lemma concat_span (arrs : list (list Z)) (i : nat) (a : list Z) :
  arrs !! i = Some a ->
  take (length a) (drop (length (concat (take i arrs))) (concat arrs)) = a.
Proof.
  intros Ha. rewrite <- (take_drop_middle arrs i a Ha) at 2.
  rewrite concat_app, drop_app_length. simpl. apply take_app_length.
Qed.

Lemma sum_take_lengths_upto (el : list Z) (arrs : list (list Z)) (i : nat) :
  (i <= length el)%nat -> (i <= length arrs)%nat ->
  (forall (j : nat) (n : Z) (a : list Z),
      (j < i)%nat -> el !! j = Some n -> arrs !! j = Some a ->
      n = Z.of_nat (length a)) ->
  sum (take i el) = Z.of_nat (length (concat (take i arrs))).
Proof.
  induction i as [|i IH]; intros Hel Harrs Hall; [reflexivity|].
  destruct (lookup_lt_is_Some_2 el i ltac:(lia)) as [n Hn].
  destruct (lookup_lt_is_Some_2 arrs i ltac:(lia)) as [a Ha].
  rewrite (sum_take_S el i n Hn), (take_S_r arrs i a Ha).
  rewrite IH by (try lia; intros j m c Hj; apply Hall; lia).
  rewrite concat_app, length_app. simpl. rewrite app_nil_r.
  rewrite (Hall i n a ltac:(lia) Hn Ha). lia.
Qed.

Lemma sum_take_lengths (el : list Z) (arrs : list (list Z)) (i : nat) :
  length el = length arrs ->
  (forall (j : nat) (n : Z) (a : list Z),
      el !! j = Some n -> arrs !! j = Some a -> n = Z.of_nat (length a)) ->
  sum (take i el) = Z.of_nat (length (concat (take i arrs))).
Proof.
  intros Hlen Hall.
  destruct (Nat.le_gt_cases i (length el)) as [Hi|Hi].
  - apply sum_take_lengths_upto; try lia. intros j n a _. apply Hall.
  - rewrite !take_ge by lia.
    rewrite <- (take_ge el (length el)), <- (take_ge arrs (length el)) by lia.
    apply sum_take_lengths_upto; try lia. intros j n a _. apply Hall.
Qed.

Lemma contract_lengths (b : ScheduleBatch.t) (pl el : list Z) :
  scheduler_contract b pl el ->
  length el = length (request_ranges pl (ScheduleBatch.reqs b))
  /\ forall (j : nat) (n : Z) (a : list Z),
       el !! j = Some n ->
       request_ranges pl (ScheduleBatch.reqs b) !! j = Some a ->
       n = Z.of_nat (length a).
Proof.
  intros [_ _ Hlp Hle Heach]. split.
  - rewrite length_request_ranges by lia. exact Hle.
  - intros j n a Hn Ha.
    destruct (ScheduleBatch.reqs b !! j) as [req|] eqn:Hreq.
    2:{ apply lookup_lt_Some in Hn. apply lookup_ge_None in Hreq. lia. }
    destruct (pl !! j) as [p|] eqn:Hp.
    2:{ apply lookup_lt_Some in Hreq. apply lookup_ge_None in Hp. lia. }
    rewrite (lookup_request_ranges pl _ j p req Hp Hreq) in Ha.
    injection Ha as <-.
    destruct (Heach j req p n Hreq Hp Hn) as [Hle' ->].
    now rewrite length_int_range.
Qed.

Lemma sum_nonneg (l : list Z) :
  (forall (k : nat) (x : Z), l !! k = Some x -> (0 <= x)%Z) -> (0 <= sum l)%Z.
Proof.
  induction l as [|y l IH]; intros Hnn; [unfold sum; simpl; lia|].
  unfold sum in *. cbn [foldr].
  pose proof (Hnn 0%nat y eq_refl).
  specialize (IH (fun k x Hx => Hnn (S k) x Hx)). lia.
Qed.

Lemma le_sum_nonneg (l : list Z) (j : nat) (n : Z) :
  (forall (k : nat) (x : Z), l !! k = Some x -> (0 <= x)%Z) ->
  l !! j = Some n -> (n <= sum l)%Z.
Proof.
  revert j. induction l as [|y l IH]; intros j Hnn Hj; [discriminate|].
  pose proof (Hnn 0%nat y eq_refl) as Hy.
  pose proof (sum_nonneg l (fun k x Hx => Hnn (S k) x Hx)) as Hl.
  unfold sum in *. cbn [foldr]. destruct j as [|j].
  - injection Hj as <-. lia.
  - specialize (IH j (fun k x Hx => Hnn (S k) x Hx) Hj). lia.
Qed.

(** C1 (amended).  In an extend-bearing batch that assembles:
    - when no request's range [[prefix_len[i], fill_len[i])] has more than
      [max_numel] entries, the positions array is the concatenation, in
      request order, of these ranges;
    - for a request [i] such that, for every request [j <= i], the supplied
      extend length is [fill_len[j] - prefix_len[j]] with
      [prefix_len[j] <= fill_len[j]] and the range of request [j] has at
      most [max_numel] entries, the slice of positions at
      [extend_start_loc[i]] of length [extend_seq_lens[i]] is the range
      [[prefix_len[i], fill_len[i])]. *)
Theorem positions_concatenate_request_ranges
    (b : ScheduleBatch.t) (h : list Tensor) :
  ForwardMode.is_decode (ScheduleBatch.forward_mode b) = false ->
  (forall (r : InputMetadata.t) (h' : list Tensor) (pl : list Z),
      InputMetadata.from_schedule_batch b h = (Ok r, h') ->
      ScheduleBatch.prefix_lens_cpu b = Some pl ->
      ranges_fit pl (ScheduleBatch.reqs b) ->
      exists P : Tensor,
        tensor_of h' (InputMetadata.positions r) = Some P
        /\ t_data P = concat (request_ranges pl (ScheduleBatch.reqs b)))
  /\ (forall (r : InputMetadata.t) (h' : list Tensor) (pl el : list Z)
             (P lens starts : Tensor) (i : nat) (req : Req.t) (p s n : Z),
        InputMetadata.from_schedule_batch b h = (Ok r, h') ->
        ScheduleBatch.prefix_lens_cpu b = Some pl ->
        ScheduleBatch.extend_lens_cpu b = Some el ->
        tensor_of h' (InputMetadata.positions r) = Some P ->
        tensor_of h' (InputMetadata.extend_seq_lens r) = Some lens ->
        tensor_of h' (InputMetadata.extend_start_loc r) = Some starts ->
        extend_lengths_agree_upto b pl el i ->
        ranges_fit_upto pl (ScheduleBatch.reqs b) i ->
        ScheduleBatch.reqs b !! i = Some req ->
        pl !! i = Some p ->
        t_data starts !! i = Some s ->
        t_data lens !! i = Some n ->
        span (t_data P) s n = int_range p (fill_len req)).
Proof.
  intros Hdec. split.
  - intros r h' pl Hrun Hpl Hfit.
    destruct (extend_run_data b h h' r Hdec Hrun)
      as (arrs & pl0 & el & P & L & X & St & Hpos & Hpl0 & _ & _ & _ & HP & _
          & _ & _ & HdP & _).
    assert (pl0 = pl) by congruence. subst pl0.
    exists P. split; [exact HP|]. rewrite HdP. f_equal.
    now apply position_ranges_fit.
  - intros r h' pl el P lens starts i req p s n Hrun Hpl Hel HP Hlens Hstarts
           Hagree Hfit Hreq Hp Hs Hn.
    destruct (extend_run_data b h h' r Hdec Hrun)
      as (arrs & pl0 & el0 & P0 & L & X & St & Hpos & Hpl0 & Hel0 & _ & _ & HP0
          & HL & _ & HS & HdP & _ & HdL & _ & _ & _ & HdS).
    assert (Epl : pl0 = pl) by congruence.
    assert (Eel : el0 = el) by congruence.
    assert (EP : P0 = P) by congruence.
    assert (EL : L = lens) by congruence.
    assert (ES : St = starts) by congruence.
    rewrite Epl in Hpos. rewrite Eel in HdL, HdS.
    rewrite EP in HdP. rewrite EL in HdL. rewrite ES in HdS.
    pose proof (length_t_data P) as Hsize. rewrite HdP in Hsize.
    rewrite HdP. rewrite HdL in Hn. rewrite HdS in Hs.
    destruct (position_ranges_Ok pl _ 0 arrs Hpos) as (Hlen & _ & Hall).
    pose proof (lookup_lt_Some _ _ _ Hn) as Hi.
    pose proof (lookup_lt_Some _ _ _ Hreq) as Hireq.
    (* the first i + 1 arrays are the ranges, of the supplied lengths *)
    assert (Hranges : forall (j : nat) (m : Z) (a : list Z),
               (j < S i)%nat -> el !! j = Some m -> arrs !! j = Some a ->
               m = Z.of_nat (length a)
               /\ forall (rj : Req.t) (pj : Z),
                    ScheduleBatch.reqs b !! j = Some rj -> pl !! j = Some pj ->
                    a = int_range pj (fill_len rj)).
    { intros j m a Hj Hm Ha.
      destruct (lookup_lt_is_Some_2 (ScheduleBatch.reqs b) j ltac:(lia))
        as [rj Hrj].
      destruct (Hall j rj Hrj) as (pj & aj & Hpj & Haj & Hnp).
      simpl in Hpj. assert (aj = a) by congruence. subst aj.
      destruct (Hagree j rj pj m ltac:(lia) Hrj Hpj Hm) as [Hle Hm'].
      pose proof (Hfit j rj pj ltac:(lia) Hrj Hpj) as Hmle.
      rewrite np_arange_fits in Hnp by lia. injection Hnp as <-.
      split; [rewrite length_int_range by lia; lia|].
      intros rj' pj' Hrj' Hpj'. congruence. }
    destruct (lookup_lt_is_Some_2 arrs i ltac:(lia)) as [a Ha].
    destruct (Hranges i n a ltac:(lia) Hn Ha) as [Hnlen Hrange].
    rewrite (Hrange req p Hreq Hp) in Ha, Hnlen.
    rewrite lookup_start_loc_data in Hs by exact Hi. injection Hs as <-.
    pose proof (sum_take_lengths_upto el arrs i ltac:(lia) ltac:(lia)
                  (fun j m c Hj Hm Hc =>
                     proj1 (Hranges j m c ltac:(lia) Hm Hc))) as Hsi.
    assert (Hmono : (length (concat (take i arrs)) <= length (concat arrs))%nat).
    { rewrite <- (take_drop i arrs) at 2. rewrite concat_app, length_app. lia. }
    assert (Hmax : (max_numel < 2 ^ 63)%Z) by (vm_compute; reflexivity).
    rewrite wrap_in_range.
    2:{ apply in_range_int64. lia. }
    unfold span. rewrite Hsi, Hnlen, !Nat2Z.id.
    now apply concat_span.
Qed.

Lemma extend_example_contract :
  scheduler_contract extend_example_batch [0; 4; 2]%Z [5; 0; 4]%Z.
Proof.
  constructor; try reflexivity.
  intros i req p n Hr Hp Hn.
  destruct i as [|[|[|i]]]; simpl in Hr, Hp, Hn; try discriminate;
    injection Hr as <-; injection Hp as <-; injection Hn as <-;
    unfold fill_len; simpl; lia.
Qed.

Lemma extend_example_agree :
  extend_lengths_agree_upto extend_example_batch [0; 4; 2]%Z [5; 0; 4]%Z 2.
Proof.
  intros j req p n _ Hr Hp Hn.
  now apply (contract_each _ _ _ extend_example_contract j).
Qed.

Lemma positions_concatenate_request_ranges_witness :
  exists (r : InputMetadata.t) (h' : list Tensor) (P lens starts : Tensor),
    InputMetadata.from_schedule_batch extend_example_batch extend_example_store
    = (Ok r, h')
    /\ tensor_of h' (InputMetadata.positions r) = Some P
    /\ tensor_of h' (InputMetadata.extend_seq_lens r) = Some lens
    /\ tensor_of h' (InputMetadata.extend_start_loc r) = Some starts
    /\ t_data P = [0; 1; 2; 3; 4; 2; 3; 4; 5]%Z
    /\ span (t_data P) 5 4 = [2; 3; 4; 5]%Z.
Proof.
  pose proof (positions_concatenate_request_ranges extend_example_batch
                extend_example_store eq_refl) as [Hcat Hspan].
  assert (Hfit : ranges_fit [0; 4; 2]%Z (ScheduleBatch.reqs extend_example_batch))
    by (apply range_sizes_fit; vm_compute; discriminate).
  assert (Hrun : exists (r : InputMetadata.t) (h' : list Tensor),
             InputMetadata.from_schedule_batch extend_example_batch
               extend_example_store = (Ok r, h')
             /\ tensor_of h' (InputMetadata.positions r)
                = Some (mkTensor int64 [0; 1; 2; 3; 4; 2; 3; 4; 5]%Z)
             /\ tensor_of h' (InputMetadata.extend_seq_lens r)
                = Some (mkTensor int64 [5; 0; 4]%Z)
             /\ tensor_of h' (InputMetadata.extend_start_loc r)
                = Some (mkTensor int64 [0; 5; 5]%Z)).
  { eexists _, _. split; [vm_compute; reflexivity|]. repeat split; reflexivity. }
  destruct Hrun as (r & h' & Hrun & HP & HL & HS).
  exists r, h', (mkTensor int64 [0; 1; 2; 3; 4; 2; 3; 4; 5]%Z),
    (mkTensor int64 [5; 0; 4]%Z), (mkTensor int64 [0; 5; 5]%Z).
  split; [exact Hrun|]. split; [exact HP|]. split; [exact HL|].
  split; [exact HS|]. split.
  - destruct (Hcat r h' [0; 4; 2]%Z Hrun eq_refl Hfit) as (P' & HP' & HdP').
    rewrite HP in HP'. injection HP' as <-. rewrite HdP'. reflexivity.
  - apply (Hspan r h' [0; 4; 2]%Z [5; 0; 4]%Z _ _ _ 2%nat
             (Req.mk [9; 9; 31; 32; 33; 34]%Z None None) 2%Z 5%Z 4%Z
             Hrun eq_refl eq_refl HP HL HS extend_example_agree);
      try reflexivity.
    intros j rj pj _ Hrj Hpj. exact (Hfit j rj pj Hrj Hpj).
Defined.

(** C1 as stated fails: the batch is extend-bearing and its one request has
    [prefix_len = 0 <= fill_len = 2]; assembly gives [positions = [0, 1]],
    [extend_start_loc = [0]], [extend_seq_lens = [1]], so the slice is
    [[0]], not the range [[0, 1]]. *)
Lemma positions_span_counterexample :
  ForwardMode.is_decode (ScheduleBatch.forward_mode off_contract_batch) = false
  /\ ~ positions_span_property off_contract_batch off_contract_store.
Proof.
  split; [reflexivity|]. intros Hprop.
  specialize (Hprop _ _ [0]%Z (mkTensor int64 [0; 1]%Z) (mkTensor int64 [1]%Z)
                (mkTensor int64 [0]%Z) eq_refl eq_refl eq_refl eq_refl eq_refl
                0%nat (Req.mk [5; 6]%Z None None) 0%Z 0%Z 1%Z
                eq_refl eq_refl).
  assert (Hle : (0 <= fill_len (Req.mk [5; 6]%Z None None))%Z)
    by (vm_compute; discriminate).
  specialize (Hprop Hle eq_refl eq_refl). vm_compute in Hprop. discriminate.
Qed.

(** ** Length consistency *)

Lemma sum_lengths_concat (el : list Z) (arrs : list (list Z)) :
  length el = length arrs ->
  (forall (j : nat) (n : Z) (a : list Z),
      el !! j = Some n -> arrs !! j = Some a -> n = Z.of_nat (length a)) ->
  sum el = Z.of_nat (length (concat arrs)).
Proof.
  intros Hlen Hall.
  pose proof (sum_take_lengths el arrs (length el) Hlen Hall) as H.
  rewrite !take_ge in H by lia. exact H.
Qed.

Lemma contract_new_token_count (b : ScheduleBatch.t) (pl el : list Z) :
  scheduler_contract b pl el ->
  new_token_count pl (ScheduleBatch.reqs b) = sum el.
Proof.
  intros [_ _ Hlp Hle Heach]. unfold new_token_count.
  f_equal. apply list_eq. intros i. rewrite lookup_zip_with.
  destruct (el !! i) as [n|] eqn:Hn.
  - destruct (ScheduleBatch.reqs b !! i) as [req|] eqn:Hreq.
    2:{ apply lookup_lt_Some in Hn. apply lookup_ge_None in Hreq. lia. }
    destruct (pl !! i) as [p|] eqn:Hp.
    2:{ apply lookup_lt_Some in Hreq. apply lookup_ge_None in Hp. lia. }
    simpl. destruct (Heach i req p n Hreq Hp Hn) as [_ ->]. reflexivity.
  - apply lookup_ge_None in Hn.
    destruct (pl !! i) as [p|] eqn:Hp; [|reflexivity].
    apply lookup_lt_Some in Hp. lia.
Qed.

(** C4. In an extend-bearing batch that assembles and whose descriptor
    satisfies the scheduler contract (each extend length is
    [fill_len[i] - prefix_len[i]] with [prefix_len[i] <= fill_len[i]], and
    [input_ids] has exactly one entry per new token), the record is
    length-consistent: [sum(extend_seq_lens) == len(positions) ==
    len(input_ids)]. *)
Theorem extend_record_length_consistent
    (b : ScheduleBatch.t) (h h' : list Tensor) (r : InputMetadata.t)
    (pl el : list Z) (ids : Tensor) :
  ForwardMode.is_decode (ScheduleBatch.forward_mode b) = false ->
  InputMetadata.from_schedule_batch b h = (Ok r, h') ->
  scheduler_contract b pl el ->
  h !! ScheduleBatch.input_ids b = Some ids ->
  Z.of_nat (length (t_data ids)) = new_token_count pl (ScheduleBatch.reqs b) ->
  exists (P lens : Tensor),
    tensor_of h' (InputMetadata.positions r) = Some P
    /\ tensor_of h' (InputMetadata.extend_seq_lens r) = Some lens
    /\ h' !! InputMetadata.input_ids r = Some ids
    /\ sum (t_data lens) = Z.of_nat (length (t_data P))
    /\ length (t_data P) = length (t_data ids).
Proof.
  intros Hdec Hrun Hc Hids Hcount.
  pose proof (contract_prefix _ _ _ Hc) as Hpl.
  pose proof (contract_extend _ _ _ Hc) as Hel.
  destruct (extend_run_data b h h' r Hdec Hrun)
    as (arrs & pl0 & el0 & P & L & X & St & Hpos & Hpl0 & Hel0 & _ & _ & HP
        & HL & _ & _ & HdP & _ & HdL & _).
  assert (Epl : pl0 = pl) by congruence.
  assert (Eel : el0 = el) by congruence.
  rewrite Epl in Hpos. rewrite Eel in HdL. clear Epl Eel Hpl0 Hel0.
  exists P, L. split; [exact HP|]. split; [exact HL|].
  split.
  { destruct (run_extend_inv b h h' r Hdec Hrun)
      as (? & ? & ? & _ & _ & _ & _ & _ & _ & _ & _ & -> & ->).
    now apply lookup_app_l_Some. }
  rewrite (contract_new_token_count b pl el Hc) in Hcount.
  pose proof (length_t_data ids) as Hids_fit.
  (* the supplied lengths are non-negative, so each is at most their sum *)
  pose proof Hc as [_ _ Hlp Hle Heach].
  assert (Hnn : forall (k : nat) (x : Z), el !! k = Some x -> (0 <= x)%Z).
  { intros k x Hx. pose proof (lookup_lt_Some _ _ _ Hx) as Hk.
    destruct (lookup_lt_is_Some_2 (ScheduleBatch.reqs b) k ltac:(lia)) as [rk Hrk].
    destruct (lookup_lt_is_Some_2 pl k ltac:(lia)) as [pk Hpk].
    destruct (Heach k rk pk x Hrk Hpk Hx) as [? ->]. lia. }
  assert (Hfit : ranges_fit pl (ScheduleBatch.reqs b)).
  { intros i req p Hreq Hp. pose proof (lookup_lt_Some _ _ _ Hreq) as Hi.
    destruct (lookup_lt_is_Some_2 el i ltac:(lia)) as [n Hn].
    destruct (Heach i req p n Hreq Hp Hn) as [_ Hn'].
    pose proof (le_sum_nonneg el i n Hnn Hn). lia. }
  rewrite (position_ranges_fit pl _ arrs Hpos Hfit) in HdP.
  rewrite HdP, HdL.
  destruct (contract_lengths b pl el Hc) as [Hlen Hall].
  pose proof (sum_lengths_concat el _ Hlen Hall) as Hsum.
  split; [exact Hsum|]. lia.
Qed.

Lemma extend_record_length_consistent_witness :
  exists (r : InputMetadata.t) (h' : list Tensor) (P lens ids : Tensor),
    InputMetadata.from_schedule_batch extend_example_batch extend_example_store
    = (Ok r, h')
    /\ tensor_of h' (InputMetadata.positions r) = Some P
    /\ tensor_of h' (InputMetadata.extend_seq_lens r) = Some lens
    /\ h' !! InputMetadata.input_ids r = Some ids
    /\ sum (t_data lens) = 9%Z
    /\ length (t_data P) = 9%nat
    /\ length (t_data ids) = 9%nat.
Proof.
  eexists _, _.
  edestruct (extend_record_length_consistent extend_example_batch
               extend_example_store)
    as (P & lens & HP & HL & HI & Hsum & Hlen);
    [reflexivity | vm_compute; reflexivity | exact extend_example_contract
    | reflexivity | reflexivity |].
  exists P, lens, (mkTensor int64 [11; 12; 13; 14; 15; 31; 32; 33; 34]%Z).
  split; [vm_compute; reflexivity|]. split; [exact HP|]. split; [exact HL|].
  split; [exact HI|].
  vm_compute in HP. injection HP as <-.
  vm_compute in HL. injection HL as <-.
  repeat split; reflexivity.
Defined.

(** ** PREFILL *)

(** C8. Assembling a PREFILL descriptor takes the branch an EXTEND
    descriptor takes (neither is a decode mode), and ends exactly as the
    otherwise-identical EXTEND descriptor does: the same exception, or the
    same record up to its [forward_mode] tag, and the same store. *)
Theorem prefill_assembles_as_extend (b : ScheduleBatch.t) (h : list Tensor) :
  ForwardMode.is_decode ForwardMode.PREFILL
  = ForwardMode.is_decode ForwardMode.EXTEND
  /\ InputMetadata.from_schedule_batch (with_mode b ForwardMode.PREFILL) h
     = outcome_map
         (fun r => InputMetadata.set_forward_mode r ForwardMode.PREFILL)
         (InputMetadata.from_schedule_batch (with_mode b ForwardMode.EXTEND) h).
Proof.
  split; [reflexivity|].
  rewrite !run_extend by reflexivity. unfold extend_outcome.
  cbn [with_mode ScheduleBatch.prefix_lens_cpu ScheduleBatch.reqs
       ScheduleBatch.extend_lens_cpu].
  destruct (InputMetadata.position_ranges _ _ _) as [[|a arrs]|e];
    [reflexivity| |reflexivity].
  destruct (_ <=? max_numel)%Z; [|reflexivity].
  destruct (ScheduleBatch.extend_lens_cpu b) as [el|]; [|reflexivity].
  destruct (tensor_list_ok el); [|reflexivity].
  destruct (ScheduleBatch.prefix_lens_cpu b) as [pl|]; [|reflexivity].
  destruct (tensor_list_ok pl); reflexivity.
Qed.

(** ** Host-side fields *)

(** C10. Whatever [return_logprob] is, the record of a decode pass has
    [extend_seq_lens_cpu], [extend_logprob_start_lens_cpu] and
    [image_inputs] unset; a record in which one of them is set comes from an
    extend-bearing pass, which copies them from the batch; and
    [return_logprob], [top_logprobs_nums] and [lora_paths] are filled from
    the batch in every mode. *)
Theorem host_fields_by_mode
    (b : ScheduleBatch.t) (h h' : list Tensor) (r : InputMetadata.t) :
  InputMetadata.from_schedule_batch b h = (Ok r, h') ->
  (ForwardMode.is_decode (ScheduleBatch.forward_mode b) = true ->
     InputMetadata.extend_seq_lens_cpu r = None
     /\ InputMetadata.extend_logprob_start_lens_cpu r = None
     /\ InputMetadata.image_inputs r = None)
  /\ (InputMetadata.extend_seq_lens_cpu r <> None
      \/ InputMetadata.extend_logprob_start_lens_cpu r <> None
      \/ InputMetadata.image_inputs r <> None ->
      ForwardMode.is_decode (ScheduleBatch.forward_mode b) = false)
  /\ (ForwardMode.is_decode (ScheduleBatch.forward_mode b) = false ->
      InputMetadata.image_inputs r
      = Some (map Req.image_inputs (ScheduleBatch.reqs b))
      /\ InputMetadata.extend_seq_lens_cpu r = ScheduleBatch.extend_lens_cpu b
      /\ InputMetadata.extend_seq_lens_cpu r <> None
      /\ InputMetadata.extend_logprob_start_lens_cpu r
         = ScheduleBatch.extend_logprob_start_lens_cpu b)
  /\ InputMetadata.return_logprob r = ScheduleBatch.return_logprob b
  /\ InputMetadata.top_logprobs_nums r = ScheduleBatch.top_logprobs_nums b
  /\ InputMetadata.lora_paths r
     = Some (map Req.lora_path (ScheduleBatch.reqs b)).
Proof.
  intros Hrun.
  destruct (mode_cases (ScheduleBatch.forward_mode b)) as [Hdec|Hdec].
  - destruct (run_decode_inv b h h' r Hdec Hrun) as (t & p & ext & _ & -> & _ & _).
    split; [intros _; repeat split; reflexivity|].
    split; [intros [H|[H|H]]; exfalso; apply H; reflexivity|].
    split; [intros Hf; congruence|].
    repeat split; reflexivity.
  - destruct (run_extend_inv b h h' r Hdec Hrun)
      as (arrs & pl & el & _ & _ & _ & Hel & _ & _ & _ & _ & -> & _).
    split; [intros Ht; congruence|].
    split; [intros _; exact Hdec|].
    split; [intros _|repeat split; reflexivity].
    split; [reflexivity|]. split; [reflexivity|]. split; [|reflexivity].
    cbn. rewrite Hel. discriminate.
Qed.

Lemma host_fields_by_mode_witness :
  exists (r : InputMetadata.t) (h' : list Tensor),
    InputMetadata.from_schedule_batch decode_example_batch decode_example_store
    = (Ok r, h')
    /\ InputMetadata.return_logprob r = true
    /\ InputMetadata.top_logprobs_nums r = Some [0; 0]%Z
    /\ InputMetadata.extend_seq_lens_cpu r = None
    /\ InputMetadata.extend_logprob_start_lens_cpu r = None
    /\ InputMetadata.image_inputs r = None.
Proof.
  eexists _, _. split; [vm_compute; reflexivity|].
  edestruct (host_fields_by_mode decode_example_batch decode_example_store)
    as (Hd & _ & _ & Hr & Ht & _); [vm_compute; reflexivity|].
  destruct (Hd eq_refl) as (H1 & H2 & H3).
  split; [exact Hr|]. split; [exact Ht|]. repeat split; assumption.
Defined.

(** ** Mode and field mismatches *)

Lemma decode_ignores_extend_fields (b : ScheduleBatch.t) (h : list Tensor) :
  ForwardMode.is_decode (ScheduleBatch.forward_mode b) = true ->
  InputMetadata.from_schedule_batch b h
  = InputMetadata.from_schedule_batch (clear_extend_fields b) h.
Proof.
  intros Hdec. unfold InputMetadata.from_schedule_batch.
  cbn [InputMetadata.forward_mode InputMetadata.cls clear_extend_fields
       ScheduleBatch.forward_mode].
  rewrite Hdec. reflexivity.
Qed.

Lemma extend_outcome_missing_field (b : ScheduleBatch.t) (h : list Tensor) :
  ScheduleBatch.prefix_lens_cpu b = None
  \/ ScheduleBatch.extend_lens_cpu b = None ->
  exists (e : PyExc) (h' : list Tensor), extend_outcome b h = (Raise e, h').
Proof.
  intros Hmiss. unfold extend_outcome.
  destruct (InputMetadata.position_ranges _ _ _) as [[|a arrs]|e]; eauto.
  destruct (_ <=? max_numel)%Z; eauto.
  destruct (ScheduleBatch.extend_lens_cpu b) as [el|]; eauto.
  destruct (tensor_list_ok el); eauto.
  destruct (ScheduleBatch.prefix_lens_cpu b) as [pl|]; eauto.
  destruct Hmiss; discriminate.
Qed.

(** C5 (amended).  There is no configuration check.  A decode-mode
    descriptor that also carries extend-only attributes is assembled as if
    they were absent: with a live [seq_lens] it yields the decode record,
    whose extend-only fields are unset.  An extend-bearing descriptor
    without [prefix_lens_cpu] or without [extend_lens_cpu] raises (one of
    the interpreter's own exceptions) and returns no record; without
    [prefix_lens_cpu] and with at least one request the exception is the
    TypeError of subscripting None, raised before anything is allocated. *)
Theorem mode_field_mismatch_outcome (b : ScheduleBatch.t) (h : list Tensor) :
  (ForwardMode.is_decode (ScheduleBatch.forward_mode b) = true ->
     InputMetadata.from_schedule_batch b h
     = InputMetadata.from_schedule_batch (clear_extend_fields b) h
     /\ (forall t : Tensor,
           h !! ScheduleBatch.seq_lens b = Some t ->
           exists (r : InputMetadata.t) (h' : list Tensor),
             InputMetadata.from_schedule_batch b h = (Ok r, h')
             /\ InputMetadata.extend_seq_lens r = None
             /\ InputMetadata.extend_prefix_lens r = None
             /\ InputMetadata.extend_start_loc r = None
             /\ InputMetadata.extend_seq_lens_cpu r = None
             /\ InputMetadata.extend_logprob_start_lens_cpu r = None))
  /\ (ForwardMode.is_decode (ScheduleBatch.forward_mode b) = false ->
      ScheduleBatch.prefix_lens_cpu b = None
      \/ ScheduleBatch.extend_lens_cpu b = None ->
      exists (e : PyExc) (h' : list Tensor),
        InputMetadata.from_schedule_batch b h = (Raise e, h'))
  /\ (ForwardMode.is_decode (ScheduleBatch.forward_mode b) = false ->
      ScheduleBatch.prefix_lens_cpu b = None ->
      ScheduleBatch.reqs b <> [] ->
      InputMetadata.from_schedule_batch b h = (Raise TypeError, h)).
Proof.
  split; [|split].
  - intros Hdec. split; [now apply decode_ignores_extend_fields|].
    intros t Hseq. destruct (run_decode b h t Hdec Hseq) as (p & ext & Hrun & _).
    eexists _, _. split; [exact Hrun|]. repeat split; reflexivity.
  - intros Hdec Hmiss. rewrite run_extend by exact Hdec.
    now apply extend_outcome_missing_field.
  - intros Hdec Hpl Hreqs. rewrite run_extend by exact Hdec.
    unfold extend_outcome. rewrite Hpl.
    destruct (ScheduleBatch.reqs b) as [|req reqs]; [congruence|].
    now rewrite position_ranges_None.
Qed.

Lemma mode_field_mismatch_outcome_witness :
  (exists (r : InputMetadata.t) (h' : list Tensor),
      InputMetadata.from_schedule_batch decode_with_extend_fields
        decode_example_store = (Ok r, h')
      /\ InputMetadata.extend_seq_lens r = None
      /\ InputMetadata.extend_seq_lens_cpu r = None)
  /\ InputMetadata.from_schedule_batch
       (clear_extend_fields extend_example_batch) extend_example_store
     = (Raise TypeError, extend_example_store).
Proof.
  split.
  - destruct (mode_field_mismatch_outcome decode_with_extend_fields
                decode_example_store) as [Hd _].
    destruct (Hd eq_refl) as [_ Hok].
    destruct (Hok (mkTensor int32 [10; 3]%Z) eq_refl)
      as (r & h' & Hrun & H1 & _ & _ & H2 & _).
    exists r, h'. repeat split; assumption.
  - destruct (mode_field_mismatch_outcome
                (clear_extend_fields extend_example_batch)
                extend_example_store) as (_ & _ & He).
    apply He; [reflexivity | reflexivity | discriminate].
Defined.

(** C5 as stated fails: the descriptor declares DECODE and supplies
    [prefix_lens_cpu], [extend_lens_cpu] and
    [extend_logprob_start_lens_cpu], yet assembly returns a record. *)
Lemma mode_field_mismatch_counterexample :
  ForwardMode.is_decode (ScheduleBatch.forward_mode decode_with_extend_fields)
  = true
  /\ extend_fields_supplied decode_with_extend_fields
  /\ exists (r : InputMetadata.t) (h' : list Tensor),
       InputMetadata.from_schedule_batch decode_with_extend_fields
         decode_example_store = (Ok r, h').
Proof.
  split; [reflexivity|]. split; [left; discriminate|].
  eexists _, _. vm_compute. reflexivity.
Qed.

(** ** Batch shape *)




(** ** Determinism and the caller's objects *)

Lemma lookup_live_app (h ext : list Tensor) (l : nat) :
  is_Some (h !! l) -> (h ++ ext) !! l = h !! l.
Proof. intros [t Ht]. rewrite Ht. now apply lookup_app_l_Some. Qed.

Lemma live_fields_app (b : ScheduleBatch.t) (h ext : list Tensor) :
  live_batch b h ->
  ((h ++ ext) !! ScheduleBatch.input_ids b,
   (h ++ ext) !! ScheduleBatch.req_pool_indices b,
   (h ++ ext) !! ScheduleBatch.seq_lens b,
   (h ++ ext) !! ScheduleBatch.out_cache_loc b)
  = (h !! ScheduleBatch.input_ids b, h !! ScheduleBatch.req_pool_indices b,
     h !! ScheduleBatch.seq_lens b, h !! ScheduleBatch.out_cache_loc b).
Proof.
  intros (H1 & H2 & H3 & H4). now rewrite !lookup_live_app by assumption.
Qed.

Lemma live_batch_app (b : ScheduleBatch.t) (h ext : list Tensor) :
  live_batch b h -> live_batch b (h ++ ext).
Proof.
  intros (H1 & H2 & H3 & H4).
  repeat split; rewrite lookup_live_app by assumption; assumption.
Qed.

(** Which way the else-branch ends depends on the descriptor only, not on
    the store it runs in. *)
Lemma extend_outcome_cases (b : ScheduleBatch.t) :
  (exists e : PyExc,
      forall h : list Tensor,
        exists ext : list Tensor, extend_outcome b h = (Raise e, h ++ ext))
  \/ (exists (arrs : list (list Z)) (pl el : list Z),
        forall h : list Tensor,
          extend_outcome b h
          = (Ok (extend_record b (length h)), h ++ extend_store arrs pl el)).
Proof.
  unfold extend_outcome.
  destruct (InputMetadata.position_ranges _ _ _) as [[|a arrs]|e].
  - left. exists ValueError. intros h. exists []. now rewrite app_nil_r.
  - destruct (_ <=? max_numel)%Z;
      [|left; exists ValueError; intros h; exists []; now rewrite app_nil_r].
    destruct (ScheduleBatch.extend_lens_cpu b) as [el|];
      [|left; exists RuntimeError; intros h; eauto].
    destruct (tensor_list_ok el);
      [|left; exists RuntimeError; intros h; eauto].
    destruct (ScheduleBatch.prefix_lens_cpu b) as [pl|];
      [|left; exists RuntimeError; intros h; eauto].
    destruct (tensor_list_ok pl);
      [|left; exists RuntimeError; intros h; eauto].
    right. exists (a :: arrs), pl, el. reflexivity.
  - left. exists e. intros h. exists []. now rewrite app_nil_r.
Qed.

(** C9. On a descriptor whose tensors are live, a call changes no object
    that existed before it (it only adds new ones), so the descriptor and
    everything it refers to are as they were; and a second call on the same
    descriptor, made in the store the first call left, ends like the first:
    the same exception, or a record with the same contents in every
    field. *)
Theorem assembly_repeatable_and_read_only
    (b : ScheduleBatch.t) (h : list Tensor) :
  live_batch b h ->
  let first := InputMetadata.from_schedule_batch b h in
  let second := InputMetadata.from_schedule_batch b (snd first) in
  preserves h (snd first)
  /\ live_batch b (snd first)
  /\ preserves (snd first) (snd second)
  /\ same_outcome first second.
Proof.
  intros Hlive. cbv zeta.
  destruct (mode_cases (ScheduleBatch.forward_mode b)) as [Hdec|Hdec].
  - destruct Hlive as (H1 & H2 & [t Hseq] & H4).
    assert (Hlive : live_batch b h) by (repeat split; eauto).
    destruct (run_decode b h t Hdec Hseq) as (p & ext & Hrun & Hp & _).
    rewrite Hrun. cbn [snd].
    assert (Hseq' : (h ++ ext) !! ScheduleBatch.seq_lens b = Some t)
      by now apply lookup_app_l_Some.
    destruct (run_decode b (h ++ ext) t Hdec Hseq') as (p2 & ext2 & Hrun2 & Hp2 & _).
    rewrite Hrun2. cbn [snd].
    split; [apply preserves_app|]. split; [now apply live_batch_app|].
    split; [apply preserves_app|].
    unfold same_outcome, contents. cbn [fst snd].
    cbn [tensor_of InputMetadata.set_positions InputMetadata.positions
         InputMetadata.extend_seq_lens InputMetadata.extend_prefix_lens
         InputMetadata.extend_start_loc InputMetadata.input_ids
         InputMetadata.req_pool_indices InputMetadata.seq_lens
         InputMetadata.out_cache_loc initial_record InputMetadata.cls].
    rewrite (live_fields_app b (h ++ ext) ext2) by now apply live_batch_app.
    rewrite Hp, Hp2. reflexivity.
  - rewrite !run_extend by exact Hdec.
    destruct (extend_outcome_cases b) as [[e He]|(A & pl & el & Hok)].
    + destruct (He h) as [ext Hext]. rewrite Hext. cbn [snd].
      destruct (He (h ++ ext)) as [ext2 Hext2]. rewrite Hext2. cbn [snd].
      split; [apply preserves_app|]. split; [now apply live_batch_app|].
      split; [apply preserves_app|]. reflexivity.
    + rewrite (Hok h). cbn [snd]. rewrite Hok. cbn [snd].
      split; [apply preserves_app|]. split; [now apply live_batch_app|].
      split; [apply preserves_app|].
      unfold same_outcome, contents. cbn [fst snd].
      set (ext := extend_store A pl el).
      destruct (extend_record_tensors b h A pl el) as (T1 & T2 & T3 & T4).
      destruct (extend_record_tensors b (h ++ ext) A pl el)
        as (U1 & U2 & U3 & U4).
      fold ext in T1, T2, T3, T4, U1, U2, U3, U4.
      rewrite T1, T2, T3, T4, U1, U2, U3, U4.
      cbn [InputMetadata.input_ids InputMetadata.req_pool_indices
           InputMetadata.seq_lens InputMetadata.out_cache_loc extend_record
           InputMetadata.set_extend_logprob_start_lens_cpu
           InputMetadata.set_extend_seq_lens_cpu
           InputMetadata.set_extend_start_loc
           InputMetadata.set_extend_prefix_lens
           InputMetadata.set_extend_seq_lens InputMetadata.set_image_inputs
           InputMetadata.set_positions initial_record InputMetadata.cls].
      rewrite (live_fields_app b (h ++ ext)) by now apply live_batch_app.
      reflexivity.
Qed.

Lemma assembly_repeatable_and_read_only_witness :
  live_batch extend_example_batch extend_example_store
  /\ (let first :=
        InputMetadata.from_schedule_batch extend_example_batch
          extend_example_store in
      let second :=
        InputMetadata.from_schedule_batch extend_example_batch (snd first) in
      preserves extend_example_store (snd first)
      /\ live_batch extend_example_batch (snd first)
      /\ preserves (snd first) (snd second)
      /\ same_outcome first second).
Proof.
  assert (Hlive : live_batch extend_example_batch extend_example_store)
    by (repeat split; eexists; reflexivity).
  split; [exact Hlive|].
  exact (assembly_repeatable_and_read_only extend_example_batch
           extend_example_store Hlive).
Defined.

(** * Further properties of the code *)

(** ** Modes *)

(** X1. The three phase predicates split the modes: every mode satisfies
    exactly one of [is_prefill], [is_extend], [is_decode]; [is_mixed]
    implies [is_extend]; and PREFILL, although it takes the else-branch of
    the assembler, is not [is_extend]. *)
Theorem mode_predicates_partition (m : ForwardMode.t) :
  ((ForwardMode.is_prefill m = true /\ ForwardMode.is_extend m = false
    /\ ForwardMode.is_decode m = false)
   \/ (ForwardMode.is_prefill m = false /\ ForwardMode.is_extend m = true
       /\ ForwardMode.is_decode m = false)
   \/ (ForwardMode.is_prefill m = false /\ ForwardMode.is_extend m = false
       /\ ForwardMode.is_decode m = true))
  /\ implb (ForwardMode.is_mixed m) (ForwardMode.is_extend m) = true
  /\ ForwardMode.is_extend ForwardMode.PREFILL = false
  /\ ForwardMode.is_decode ForwardMode.PREFILL = false.
Proof. destruct m; cbn; intuition. Qed.

(** X2. [ForwardMode(v)] and [.value] are inverse to each other:
    [ForwardMode(v)] is the member [m] exactly when [m.value == v], and it
    succeeds exactly for [1 <= v <= 4] (numbering by [auto()] starts at 1,
    so 0 is no mode). *)
Theorem forward_mode_value_round_trip (v : Z) (m : ForwardMode.t) :
  (ForwardMode.call v = Ok m <-> ForwardMode.value m = v)
  /\ ((exists m' : ForwardMode.t, ForwardMode.call v = Ok m')
      <-> (1 <= v <= 4)%Z).
Proof.
  assert (Hcases : (v = 1 \/ v = 2 \/ v = 3 \/ v = 4 \/ ~ (1 <= v <= 4))%Z) by lia.
  split; split.
  - destruct Hcases as [->|[->|[->|[->|Hout]]]]; cbn; intros H;
      try (injection H as <-; reflexivity).
    exfalso. unfold ForwardMode.call, ForwardMode.members in H.
    cbn [find ForwardMode.value] in H.
    destruct (Z.eqb_spec 1 v); [lia|]. destruct (Z.eqb_spec 2 v); [lia|].
    destruct (Z.eqb_spec 3 v); [lia|]. destruct (Z.eqb_spec 4 v); [lia|].
    discriminate.
  - intros <-. destruct m; reflexivity.
  - intros [m' H].
    destruct Hcases as [->|[->|[->|[->|Hout]]]]; try lia.
    exfalso. unfold ForwardMode.call, ForwardMode.members in H.
    cbn [find ForwardMode.value] in H.
    destruct (Z.eqb_spec 1 v); [lia|]. destruct (Z.eqb_spec 2 v); [lia|].
    destruct (Z.eqb_spec 3 v); [lia|]. destruct (Z.eqb_spec 4 v); [lia|].
    discriminate.
  - intros Hv.
    destruct Hcases as [->|[->|[->|[->|Hout]]]]; try lia; eexists; reflexivity.
Qed.

Lemma forward_mode_value_round_trip_witness :
  ForwardMode.call 3 = Ok ForwardMode.DECODE
  /\ ~ (exists m' : ForwardMode.t, ForwardMode.call 0 = Ok m').
Proof.
  split.
  - apply (forward_mode_value_round_trip 3 ForwardMode.DECODE). reflexivity.
  - intros H.
    apply (forward_mode_value_round_trip 0 ForwardMode.PREFILL) in H. lia.
Defined.

(** X3. The assembler looks at the mode through [is_decode] only: two
    descriptors that differ in their mode alone, neither mode being DECODE,
    end alike up to the [forward_mode] tag of the record (so MIXED, EXTEND
    and PREFILL batches are assembled by the same steps). *)
Theorem non_decode_modes_assemble_alike
    (b : ScheduleBatch.t) (m1 m2 : ForwardMode.t) (h : list Tensor) :
  ForwardMode.is_decode m1 = false ->
  ForwardMode.is_decode m2 = false ->
  InputMetadata.from_schedule_batch (with_mode b m2) h
  = outcome_map (fun r => InputMetadata.set_forward_mode r m2)
      (InputMetadata.from_schedule_batch (with_mode b m1) h).
Proof.
  intros H1 H2. rewrite !run_extend by assumption. unfold extend_outcome.
  cbn [with_mode ScheduleBatch.prefix_lens_cpu ScheduleBatch.reqs
       ScheduleBatch.extend_lens_cpu].
  destruct (InputMetadata.position_ranges _ _ _) as [[|a arrs]|e];
    [reflexivity| |reflexivity].
  destruct (_ <=? max_numel)%Z; [|reflexivity].
  destruct (ScheduleBatch.extend_lens_cpu b) as [el|]; [|reflexivity].
  destruct (tensor_list_ok el); [|reflexivity].
  destruct (ScheduleBatch.prefix_lens_cpu b) as [pl|]; [|reflexivity].
  destruct (tensor_list_ok pl); reflexivity.
Qed.

Lemma non_decode_modes_assemble_alike_witness :
  InputMetadata.from_schedule_batch
    (with_mode extend_example_batch ForwardMode.MIXED) extend_example_store
  = outcome_map (fun r => InputMetadata.set_forward_mode r ForwardMode.MIXED)
      (InputMetadata.from_schedule_batch
         (with_mode extend_example_batch ForwardMode.EXTEND)
         extend_example_store).
Proof.
  apply (non_decode_modes_assemble_alike extend_example_batch
           ForwardMode.EXTEND ForwardMode.MIXED); reflexivity.
Defined.

(** ** When an extend-bearing pass succeeds *)



(** ** References held by the record *)

(** X5. The record of a successful call holds the batch's own four tensors
    (the same objects, not copies), while every tensor behind [positions],
    [extend_seq_lens], [extend_prefix_lens] and [extend_start_loc] is an
    object created by the call: it did not exist in the caller's store and
    it exists in the store the call leaves.  On an extend-bearing pass these
    four are pairwise different objects. *)
Theorem record_shares_inputs_and_owns_outputs
    (b : ScheduleBatch.t) (h h' : list Tensor) (r : InputMetadata.t) :
  InputMetadata.from_schedule_batch b h = (Ok r, h') ->
  (InputMetadata.input_ids r = ScheduleBatch.input_ids b
   /\ InputMetadata.req_pool_indices r = ScheduleBatch.req_pool_indices b
   /\ InputMetadata.seq_lens r = ScheduleBatch.seq_lens b
   /\ InputMetadata.out_cache_loc r = ScheduleBatch.out_cache_loc b)
  /\ (forall l : nat,
        InputMetadata.positions r = Some l
        \/ InputMetadata.extend_seq_lens r = Some l
        \/ InputMetadata.extend_prefix_lens r = Some l
        \/ InputMetadata.extend_start_loc r = Some l ->
        h !! l = None /\ is_Some (h' !! l))
  /\ (ForwardMode.is_decode (ScheduleBatch.forward_mode b) = false ->
      exists p e x s : nat,
        InputMetadata.positions r = Some p
        /\ InputMetadata.extend_seq_lens r = Some e
        /\ InputMetadata.extend_prefix_lens r = Some x
        /\ InputMetadata.extend_start_loc r = Some s
        /\ NoDup [p; e; x; s]).
Proof.
  intros Hrun.
  destruct (mode_cases (ScheduleBatch.forward_mode b)) as [Hdec|Hdec].
  - destruct (h !! ScheduleBatch.seq_lens b) as [t|] eqn:Hseq.
    2:{ rewrite run_decode_dangling in Hrun by assumption. discriminate. }
    destruct (run_decode b h t Hdec Hseq) as (p & ext & Hr & Hp & Hge).
    rewrite Hr in Hrun. injection Hrun as <- <-.
    split; [repeat split; reflexivity|]. split; [|congruence].
    intros l [Hl|[Hl|[Hl|Hl]]]; try discriminate.
    injection Hl as <-. split; [now apply lookup_ge_None|eauto].
  - destruct (run_extend_inv b h h' r Hdec Hrun)
      as (arrs & pl & el & _ & _ & _ & _ & _ & _ & _ & _ & -> & ->).
    split; [repeat split; reflexivity|]. split.
    + intros l Hl.
      assert (Hk : exists k : nat, (k < 4)%nat /\ l = (length h + k)%nat).
      { destruct Hl as [Hl|[Hl|[Hl|Hl]]]; injection Hl as <-;
          [exists 0%nat|exists 1%nat|exists 2%nat|exists 3%nat]; lia. }
      destruct Hk as (k & Hk & ->). split.
      * apply lookup_ge_None. lia.
      * rewrite lookup_ext. apply lookup_lt_is_Some. simpl. lia.
    + intros _. exists (length h), (length h + 1)%nat, (length h + 2)%nat,
        (length h + 3)%nat.
      repeat split; try reflexivity.
      repeat constructor; rewrite ?list_elem_of_In; simpl; lia.
Qed.

Lemma record_shares_inputs_and_owns_outputs_witness :
  exists (r : InputMetadata.t) (h' : list Tensor),
    InputMetadata.from_schedule_batch decode_example_batch decode_example_store
    = (Ok r, h')
    /\ InputMetadata.seq_lens r = ScheduleBatch.seq_lens decode_example_batch
    /\ exists l : nat,
         InputMetadata.positions r = Some l
         /\ decode_example_store !! l = None /\ is_Some (h' !! l).
Proof.
  eexists _, _. split; [vm_compute; reflexivity|].
  edestruct (record_shares_inputs_and_owns_outputs decode_example_batch
               decode_example_store) as ((_ & _ & Hs & _) & Hfresh & _);
    [vm_compute; reflexivity|].
  split; [exact Hs|]. exists 5%nat. split; [reflexivity|].
  apply Hfresh. left. reflexivity.
Defined.

(** ** Device tensors and their host mirrors *)

(** X6. On an extend-bearing pass the device tensors are copies of the
    host lists: [extend_seq_lens] holds exactly the entries of
    [extend_seq_lens_cpu] (the list [batch.extend_lens_cpu]), and
    [extend_prefix_lens] holds every entry of [batch.prefix_lens_cpu], also
    those beyond the number of requests; every entry fits int64.  Each
    tensor has the dtype [torch.tensor] infers from its list: int64 when
    the list has an entry, float32 when it is empty. *)
Theorem device_tensors_mirror_host_lists
    (b : ScheduleBatch.t) (h h' : list Tensor) (r : InputMetadata.t) :
  ForwardMode.is_decode (ScheduleBatch.forward_mode b) = false ->
  InputMetadata.from_schedule_batch b h = (Ok r, h') ->
  exists (lens prefixes : Tensor),
    tensor_of h' (InputMetadata.extend_seq_lens r) = Some lens
    /\ tensor_of h' (InputMetadata.extend_prefix_lens r) = Some prefixes
    /\ t_dtype lens = (if decide (t_data lens = []) then float32 else int64)
    /\ t_dtype prefixes
       = (if decide (t_data prefixes = []) then float32 else int64)
    /\ InputMetadata.extend_seq_lens_cpu r = Some (t_data lens)
    /\ ScheduleBatch.extend_lens_cpu b = Some (t_data lens)
    /\ ScheduleBatch.prefix_lens_cpu b = Some (t_data prefixes)
    /\ forallb (in_range int64) (t_data lens) = true
    /\ forallb (in_range int64) (t_data prefixes) = true.
Proof.
  intros Hdec Hrun.
  destruct (extend_run_data b h h' r Hdec Hrun)
    as (arrs & pl & el & P & L & X & St & _ & Hpl & Hel & Hokpl & Hokel & _
        & HL & HX & _ & _ & _ & HdL & HtL & HdX & HtX & _).
  apply tensor_list_ok_spec in Hokpl as [Hrpl _].
  apply tensor_list_ok_spec in Hokel as [Hrel _].
  assert (Hcpu : InputMetadata.extend_seq_lens_cpu r = Some el).
  { destruct (run_extend_inv b h h' r Hdec Hrun)
      as (? & ? & ? & _ & _ & _ & Hel' & _ & _ & _ & _ & -> & _).
    cbn. congruence. }
  exists L, X. rewrite HdL, HdX, HtL, HtX.
  split; [exact HL|]. split; [exact HX|].
  split; [now destruct el|]. split; [now destruct pl|].
  repeat split; assumption.
Qed.

Lemma device_tensors_mirror_host_lists_witness :
  exists (r : InputMetadata.t) (h' : list Tensor) (lens prefixes : Tensor),
    InputMetadata.from_schedule_batch ragged_batch off_contract_store = (Ok r, h')
    /\ tensor_of h' (InputMetadata.extend_seq_lens r) = Some lens
    /\ tensor_of h' (InputMetadata.extend_prefix_lens r) = Some prefixes
    /\ t_data lens = [2; 9]%Z
    /\ t_data prefixes = [0; 7; 7]%Z.
Proof.
  eexists _, _.
  edestruct (device_tensors_mirror_host_lists ragged_batch off_contract_store)
    as (lens & prefixes & HL & HP & _ & _ & _ & Hel & Hpl & _);
    [reflexivity | vm_compute; reflexivity |].
  exists lens, prefixes. split; [vm_compute; reflexivity|].
  split; [exact HL|]. split; [exact HP|].
  injection Hel as <-. injection Hpl as <-. split; reflexivity.
Defined.

(** ** The positions array without the scheduler contract *)

Lemma in_arange_n (x start : Z) (n : nat) :
  In x (arange_n start n) <-> (start <= x < start + Z.of_nat n)%Z.
Proof.
  revert start. induction n as [|n IH]; intros start; simpl.
  - lia.
  - rewrite IH. lia.
Qed.

Lemma in_int_range (x start stop : Z) :
  In x (int_range start stop) <-> (start <= x < stop)%Z.
Proof. unfold int_range. rewrite in_arange_n. lia. Qed.

(** X7. On an extend-bearing pass, whatever the supplied extend lengths,
    [positions] is an int64 tensor and, when no request's range
    [fill_len[i] - prefix_len[i]] exceeds [max_numel], [len(positions)] is
    the sum over the requests of [max(0, fill_len[i] - prefix_len[i])]: a
    request whose cached prefix reaches or exceeds its fill length adds no
    position and raises no error. *)
Theorem positions_length_is_sum_of_range_sizes
    (b : ScheduleBatch.t) (h h' : list Tensor) (r : InputMetadata.t) :
  ForwardMode.is_decode (ScheduleBatch.forward_mode b) = false ->
  InputMetadata.from_schedule_batch b h = (Ok r, h') ->
  exists (pl : list Z) (P : Tensor),
    ScheduleBatch.prefix_lens_cpu b = Some pl
    /\ tensor_of h' (InputMetadata.positions r) = Some P
    /\ t_dtype P = int64
    /\ (ranges_fit pl (ScheduleBatch.reqs b) ->
        Z.of_nat (length (t_data P))
        = sum (range_sizes pl (ScheduleBatch.reqs b))).
Proof.
  intros Hdec Hrun.
  destruct (extend_run_data b h h' r Hdec Hrun)
    as (arrs & pl & el & P & L & X & St & Hpos & Hpl & _ & _ & _ & HP & _ & _
        & _ & HdP & HtP & _).
  exists pl, P. split; [exact Hpl|]. split; [exact HP|]. split; [exact HtP|].
  intros Hfit. rewrite HdP, (position_ranges_fit pl _ arrs Hpos Hfit).
  apply length_concat_request_ranges.
Qed.

Lemma positions_length_is_sum_of_range_sizes_witness :
  exists (r : InputMetadata.t) (h' : list Tensor) (P : Tensor),
    InputMetadata.from_schedule_batch overlong_prefix_batch off_contract_store
    = (Ok r, h')
    /\ tensor_of h' (InputMetadata.positions r) = Some P
    /\ Z.of_nat (length (t_data P)) = 2%Z.
Proof.
  eexists _, _.
  edestruct (positions_length_is_sum_of_range_sizes overlong_prefix_batch
               off_contract_store)
    as (pl & P & Hpl & HP & _ & Hlen); [reflexivity|vm_compute; reflexivity|].
  exists P. split; [vm_compute; reflexivity|]. split; [exact HP|].
  injection Hpl as <-. apply Hlen.
  apply range_sizes_fit. vm_compute. discriminate.
Defined.

(** X8. On an extend-bearing pass every entry of [positions] lies in
    [[prefix_len[i], fill_len[i])] for some request [i]; and when no
    request's range [fill_len[i] - prefix_len[i]] exceeds [max_numel],
    every integer of such a range occurs in [positions]. *)
Theorem positions_entries_are_request_positions
    (b : ScheduleBatch.t) (h h' : list Tensor) (r : InputMetadata.t) :
  ForwardMode.is_decode (ScheduleBatch.forward_mode b) = false ->
  InputMetadata.from_schedule_batch b h = (Ok r, h') ->
  exists (pl : list Z) (P : Tensor),
    ScheduleBatch.prefix_lens_cpu b = Some pl
    /\ tensor_of h' (InputMetadata.positions r) = Some P
    /\ (forall x : Z,
          In x (t_data P) ->
          exists (i : nat) (req : Req.t) (p : Z),
            ScheduleBatch.reqs b !! i = Some req
            /\ pl !! i = Some p
            /\ (p <= x < fill_len req)%Z)
    /\ (ranges_fit pl (ScheduleBatch.reqs b) ->
        forall (x : Z) (i : nat) (req : Req.t) (p : Z),
          ScheduleBatch.reqs b !! i = Some req ->
          pl !! i = Some p ->
          (p <= x < fill_len req)%Z ->
          In x (t_data P)).
Proof.
  intros Hdec Hrun.
  destruct (extend_run_data b h h' r Hdec Hrun)
    as (arrs & pl & el & P & L & X & St & Hpos & Hpl & _ & _ & _ & HP & _ & _
        & _ & HdP & _).
  exists pl, P. split; [exact Hpl|]. split; [exact HP|]. rewrite HdP. split.
  - intros x Hx. apply in_concat in Hx as (a & Ha & Hx).
    apply list_elem_of_In, list_elem_of_lookup in Ha as [k Hk].
    destruct (position_ranges_Ok pl _ 0 arrs Hpos) as (Hlen & _ & Hall).
    pose proof (lookup_lt_Some _ _ _ Hk) as Hlt. rewrite Hlen in Hlt.
    destruct (lookup_lt_is_Some_2 _ _ Hlt) as [req Hreq].
    destruct (Hall k req Hreq) as (p & a' & Hp & Ha' & Hnp).
    simpl in Hp. assert (a' = a) by congruence. subst a'.
    exists k, req, p. split; [exact Hreq|]. split; [exact Hp|].
    destruct (np_arange_ok _ _ _ Hnp) as [[_ ->]|[_ ->]].
    + now apply in_int_range.
    + destruct Hx.
  - intros Hfit x i req p Hreq Hp Hx.
    rewrite (position_ranges_fit pl _ arrs Hpos Hfit).
    apply in_concat. exists (int_range p (fill_len req)). split.
    + apply list_elem_of_In. unfold request_ranges.
      apply elem_of_lookup_zip_with. exists i, p, req. repeat split; assumption.
    + now apply in_int_range.
Qed.

Lemma positions_entries_are_request_positions_witness :
  exists (r : InputMetadata.t) (h' : list Tensor) (P : Tensor),
    InputMetadata.from_schedule_batch extend_example_batch extend_example_store
    = (Ok r, h')
    /\ tensor_of h' (InputMetadata.positions r) = Some P
    /\ In 5%Z (t_data P) /\ ~ In 6%Z (t_data P).
Proof.
  eexists _, _.
  edestruct (positions_entries_are_request_positions extend_example_batch
               extend_example_store)
    as (pl & P & Hpl & HP & Hin & Hall);
    [reflexivity|vm_compute; reflexivity|].
  exists P. split; [vm_compute; reflexivity|]. split; [exact HP|].
  injection Hpl as <-. split.
  - apply (Hall ltac:(apply range_sizes_fit; vm_compute; discriminate)
             5%Z 2%nat (Req.mk [9; 9; 31; 32; 33; 34]%Z None None) 2%Z);
      [reflexivity|reflexivity|unfold fill_len; simpl; lia].
  - intros H6. apply Hin in H6 as (i & req & p & Hreq & Hp & Hx).
    destruct i as [|[|[|i]]]; simpl in Hreq, Hp; try discriminate;
      injection Hreq as <-; injection Hp as <-; unfold fill_len in Hx;
      simpl in Hx; lia.
Defined.

(** ** Spans under the scheduler contract *)

Lemma contract_ranges_fit (b : ScheduleBatch.t) (pl el : list Z) :
  scheduler_contract b pl el ->
  (sum el <= max_numel)%Z ->
  ranges_fit pl (ScheduleBatch.reqs b).
Proof.
  intros [_ _ Hlp Hle Heach] Hsum.
  assert (Hnn : forall (k : nat) (x : Z), el !! k = Some x -> (0 <= x)%Z).
  { intros k x Hx. pose proof (lookup_lt_Some _ _ _ Hx) as Hk.
    destruct (lookup_lt_is_Some_2 (ScheduleBatch.reqs b) k ltac:(lia)) as [rk Hrk].
    destruct (lookup_lt_is_Some_2 pl k ltac:(lia)) as [pk Hpk].
    destruct (Heach k rk pk x Hrk Hpk Hx) as [? ->]. lia. }
  intros i req p Hreq Hp. pose proof (lookup_lt_Some _ _ _ Hreq) as Hi.
  destruct (lookup_lt_is_Some_2 el i ltac:(lia)) as [n Hn].
  destruct (Heach i req p n Hreq Hp Hn) as [_ Hn'].
  pose proof (le_sum_nonneg el i n Hnn Hn). lia.
Qed.

(** X9. Under the scheduler contract, with at most [max_numel] new tokens
    in total, every request's span lies inside the positions array: its
    offset and its length are non-negative and [extend_start_loc[i] +
    extend_seq_lens[i] <= len(positions)], with equality for the last
    request. *)
Theorem request_spans_within_positions
    (b : ScheduleBatch.t) (h h' : list Tensor) (r : InputMetadata.t)
    (pl el : list Z) :
  ForwardMode.is_decode (ScheduleBatch.forward_mode b) = false ->
  InputMetadata.from_schedule_batch b h = (Ok r, h') ->
  scheduler_contract b pl el ->
  (sum el <= max_numel)%Z ->
  exists (P lens starts : Tensor),
    tensor_of h' (InputMetadata.positions r) = Some P
    /\ tensor_of h' (InputMetadata.extend_seq_lens r) = Some lens
    /\ tensor_of h' (InputMetadata.extend_start_loc r) = Some starts
    /\ forall (i : nat) (s n : Z),
         t_data starts !! i = Some s ->
         t_data lens !! i = Some n ->
         (0 <= s)%Z /\ (0 <= n)%Z
         /\ (s + n <= Z.of_nat (length (t_data P)))%Z
         /\ (S i = length (t_data lens) ->
             (s + n)%Z = Z.of_nat (length (t_data P))).
Proof.
  intros Hdec Hrun Hc Hsum.
  pose proof (contract_prefix _ _ _ Hc) as Hpl.
  pose proof (contract_extend _ _ _ Hc) as Hel.
  destruct (extend_run_data b h h' r Hdec Hrun)
    as (arrs0 & pl0 & el0 & P & L & X & St & Hpos & Hpl0 & Hel0 & _ & _ & HP
        & HL & _ & HS & HdP & _ & HdL & _ & _ & _ & HdS).
  assert (Epl : pl0 = pl) by congruence.
  assert (Eel : el0 = el) by congruence.
  rewrite Epl in Hpos. rewrite Eel in HdL, HdS. clear Epl Eel Hpl0 Hel0.
  pose proof (contract_ranges_fit b pl el Hc Hsum) as Hfit.
  rewrite (position_ranges_fit pl _ arrs0 Hpos Hfit) in HdP.
  set (arrs := request_ranges pl (ScheduleBatch.reqs b)) in *.
  exists P, L, St.
  split; [exact HP|]. split; [exact HL|]. split; [exact HS|].
  rewrite HdP, HdL, HdS. intros i s n Hs Hn.
  destruct (contract_lengths b pl el Hc) as [Hlen Hall]. fold arrs in Hlen, Hall.
  pose proof (lookup_lt_Some _ _ _ Hn) as Hi.
  rewrite lookup_start_loc_data in Hs by exact Hi. injection Hs as <-.
  pose proof (sum_take_lengths el arrs i Hlen Hall) as Hsi.
  pose proof (sum_take_lengths el arrs (S i) Hlen Hall) as HsSi.
  pose proof (sum_lengths_concat el arrs Hlen Hall) as Htot.
  rewrite (sum_take_S el i n Hn) in HsSi.
  assert (Hn0 : (0 <= n)%Z).
  { destruct (arrs !! i) as [a|] eqn:Ha.
    - rewrite (Hall i n a Hn Ha). lia.
    - apply lookup_ge_None in Ha. lia. }
  assert (Hmono : (length (concat (take (S i) arrs)) <= length (concat arrs))%nat).
  { rewrite <- (take_drop (S i) arrs) at 2. rewrite concat_app, length_app. lia. }
  assert (Hmax : (max_numel < 2 ^ 63)%Z) by (vm_compute; reflexivity).
  rewrite wrap_in_range.
  2:{ apply in_range_int64. lia. }
  split; [lia|]. split; [lia|]. split; [lia|].
  intros Hlast. rewrite HsSi. rewrite take_ge by lia. reflexivity.
Qed.

Lemma request_spans_within_positions_witness :
  exists (r : InputMetadata.t) (h' : list Tensor) (P lens starts : Tensor),
    InputMetadata.from_schedule_batch extend_example_batch extend_example_store
    = (Ok r, h')
    /\ tensor_of h' (InputMetadata.positions r) = Some P
    /\ tensor_of h' (InputMetadata.extend_seq_lens r) = Some lens
    /\ tensor_of h' (InputMetadata.extend_start_loc r) = Some starts
    /\ t_data starts !! 2%nat = Some 5%Z
    /\ t_data lens !! 2%nat = Some 4%Z
    /\ (5 + 4)%Z = Z.of_nat (length (t_data P)).
Proof.
  eexists _, _.
  edestruct (request_spans_within_positions extend_example_batch
               extend_example_store)
    as (P & lens & starts & HP & HL & HS & Hin);
    [reflexivity | vm_compute; reflexivity | exact extend_example_contract
    | vm_compute; discriminate |].
  exists P, lens, starts. split; [vm_compute; reflexivity|].
  split; [exact HP|]. split; [exact HL|]. split; [exact HS|].
  assert (Hs : t_data starts !! 2%nat = Some 5%Z)
    by (vm_compute in HS; injection HS as <-; reflexivity).
  assert (Hn : t_data lens !! 2%nat = Some 4%Z)
    by (vm_compute in HL; injection HL as <-; reflexivity).
  split; [exact Hs|]. split; [exact Hn|].
  apply (Hin 2%nat 5%Z 4%Z Hs Hn).
  vm_compute in HL. injection HL as <-. reflexivity.
Defined.

(** ** What a pass reads *)

(** X10. An extend-bearing pass reads no tensor of the caller: run in any
    two stores, it raises the same exception or creates the same host
    fields and the same four tensors.  Its result is a function of the
    descriptor's mode, requests and host lists alone. *)
Theorem extend_pass_reads_no_tensor
    (b : ScheduleBatch.t) (h1 h2 : list Tensor) :
  ForwardMode.is_decode (ScheduleBatch.forward_mode b) = false ->
  same_created (InputMetadata.from_schedule_batch b h1)
               (InputMetadata.from_schedule_batch b h2).
Proof.
  intros Hdec. rewrite !run_extend by exact Hdec.
  destruct (extend_outcome_cases b) as [[e He]|(A & pl & el & Hok)].
  - destruct (He h1) as [ext1 ->]. destruct (He h2) as [ext2 ->]. reflexivity.
  - rewrite (Hok h1), (Hok h2). unfold same_created, created. cbn [fst snd].
    destruct (extend_record_tensors b h1 A pl el) as (T1 & T2 & T3 & T4).
    destruct (extend_record_tensors b h2 A pl el) as (U1 & U2 & U3 & U4).
    rewrite T1, T2, T3, T4, U1, U2, U3, U4. reflexivity.
Qed.

Lemma extend_pass_reads_no_tensor_witness :
  same_created
    (InputMetadata.from_schedule_batch extend_example_batch extend_example_store)
    (InputMetadata.from_schedule_batch extend_example_batch other_store).
Proof.
  apply (extend_pass_reads_no_tensor extend_example_batch extend_example_store
           other_store).
  reflexivity.
Defined.

(** X11. A decode pass reads one tensor, [seq_lens]: in any two stores in
    which the batch's [seq_lens] reference holds the same tensor, it
    creates the same host fields and the same positions tensor, whatever
    the other tensors, the requests' fill ids and the host lists are. *)
Theorem decode_pass_reads_seq_lens_only
    (b : ScheduleBatch.t) (h1 h2 : list Tensor) (t : Tensor) :
  ForwardMode.is_decode (ScheduleBatch.forward_mode b) = true ->
  h1 !! ScheduleBatch.seq_lens b = Some t ->
  h2 !! ScheduleBatch.seq_lens b = Some t ->
  same_created (InputMetadata.from_schedule_batch b h1)
               (InputMetadata.from_schedule_batch b h2)
  /\ exists (r : InputMetadata.t) (h' : list Tensor),
       InputMetadata.from_schedule_batch b h1 = (Ok r, h').
Proof.
  intros Hdec H1 H2.
  destruct (run_decode b h1 t Hdec H1) as (p1 & ext1 & Hr1 & Hp1 & _).
  destruct (run_decode b h2 t Hdec H2) as (p2 & ext2 & Hr2 & Hp2 & _).
  rewrite Hr1, Hr2. split; [|eauto].
  unfold same_created, created. cbn [fst snd].
  cbn [tensor_of InputMetadata.set_positions InputMetadata.positions
       InputMetadata.extend_seq_lens InputMetadata.extend_prefix_lens
       InputMetadata.extend_start_loc initial_record InputMetadata.cls].
  rewrite Hp1, Hp2. reflexivity.
Qed.

Lemma decode_pass_reads_seq_lens_only_witness :
  same_created
    (InputMetadata.from_schedule_batch decode_example_batch decode_example_store)
    (InputMetadata.from_schedule_batch decode_example_batch other_decode_store).
Proof.
  apply (decode_pass_reads_seq_lens_only decode_example_batch
           decode_example_store other_decode_store (mkTensor int32 [10; 3]%Z));
    reflexivity.
Defined.
